(** * Session orchestration layer of the podcast client

    A shallow embedding of the browser-side managers found under
    [static/js]: the WebSocket handler (connection, reconnection with
    back-off, offline queue, inbound dispatch), the survey manager, the audio
    manager and the file-upload manager.

    Each JavaScript object becomes a record holding its fields, each method a
    function from state to state.  What the browser decides (whether a
    [ws.send] or an [audio.play()] throws, whether [new WebSocket] throws) is
    read from outcome scripts carried in the state, so every definition can
    be run on concrete inputs.  The DOM is presentation only and is not
    modelled, except for what a property talks about ([alert] boxes and the
    per-question error fields) and what a method's result depends on (the
    [name] attributes [handleRatingClick] looks up).  The [async] methods
    of the audio manager are embedded twice: with each [await] taken in one
    step ([AudioManager]) and with the handlers interleaved
    ([AudioEvents]).

    The repository holds an earlier copy of the handler as well (status-keyed
    dispatch, no survey routing); its [connect], [handleOpen],
    [handleReconnect] and [sendMessage] read the same as the ones embedded
    here. *)

From Stdlib Require Import ZArith QArith Lia List String.
From stdpp Require Import base list strings gmap pretty.

Local Open Scope string_scope.
Local Open Scope list_scope.

(* ===================================================================== *)
(** * JavaScript values *)
(* ===================================================================== *)

Module JS.

(** The values a survey response can hold.  Numbers are integers ([NaN]
    apart): ratings are the integers [1..max] set by [handleRatingClick].
    A string is the sequence of its code units, one Rocq character each. *)
Inductive Value : Type :=
| Undefined
| Null
| Bool (b : bool)
| Number (z : Z)
| NaN
| Str (s : string)
| Arr (items : list string).

(** [!v] is [false]: every value but undefined, null, false, 0, NaN
    and the empty string ([[]] is truthy). *)
Definition truthy (v : Value) : bool :=
  match v with
  | Undefined | Null | NaN => false
  | Bool b => b
  | Number z => negb (z =? 0)%Z
  | Str s => negb (String.eqb s "")
  | Arr _ => true
  end.

Definition falsy (v : Value) : bool := negb (truthy v).

(** [v.length]: defined on strings and arrays, [undefined] elsewhere.
    (Reading a property of undefined or null throws; the validator only
    reads it from a truthy value.) *)
Definition length (v : Value) : option Z :=
  match v with
  | Str s => Some (Z.of_nat (String.length s))
  | Arr items => Some (Z.of_nat (List.length items))
  | _ => None
  end.

(** A number used as a condition ([min && ...]): undefined and 0 are
    falsy. *)
Definition truthy_num (n : option Z) : bool :=
  match n with
  | Some z => negb (z =? 0)%Z
  | None => false
  end.

(** [a < b] and [a > b] on numbers, [None] standing for undefined or NaN:
    any comparison with it is false. *)
Definition lt (a b : option Z) : bool :=
  match a, b with
  | Some x, Some y => (x <? y)%Z
  | _, _ => false
  end.

Definition gt (a b : option Z) : bool := lt b a.

End JS.

(* ===================================================================== *)
(** * Outbound messages *)
(* ===================================================================== *)

(** The objects handed to [wsHandler.sendMessage] across the client, one
    constructor per [type] field, and the plain-string form. *)
Inductive Message : Type :=
| survey_generate (topic : string)
| survey_submit (survey_id : option string) (responses : gmap string JS.Value)
| program_plan (survey_id : option string)
| file_process (file_path : string)
| dialogue (topic : string) (file_context : JS.Value)
| text (content : string).

(* ===================================================================== *)
(** * websocket-handler.js : WebSocketHandler *)
(* ===================================================================== *)

Module WebSocketHandler.

Inductive ReadyState : Type := CONNECTING | OPEN | CLOSING | CLOSED.

Definition is_open (r : ReadyState) : bool :=
  match r with OPEN => true | _ => false end.

(** A browser socket: its [readyState] and the messages [ws.send] accepted,
    oldest first.  ([sendMessage] sends
    [JSON.stringify(standardizeMessage(message))]; the frame is
    identified with the message it was built from.) *)
Record WebSocket : Type := mkWebSocket {
  readyState : ReadyState;
  sent : list Message
}.

(** The handler's fields, followed by the part of the browser it acts on. *)
Record t : Type := mk {
  ws : option WebSocket;
  reconnectAttempts : nat;
  maxReconnectAttempts : nat;
  reconnectDelay : Q;
  isConnecting : bool;
  messageQueue : list Message;
  (* browser side *)
  detached : list WebSocket;   (* sockets [this.ws] no longer points to *)
  timers : list Q;             (* delays given to [setTimeout], oldest first *)
  send_script : list bool;     (* next [try { ... ws.send }] outcomes:
                                  [true] throws; none left: succeeds *)
  ctor_script : list bool      (* same for [new WebSocket(...)] *)
}.

Definition set_ws (v : option WebSocket) (h : t) : t :=
  mk v (reconnectAttempts h) (maxReconnectAttempts h) (reconnectDelay h)
     (isConnecting h) (messageQueue h) (detached h) (timers h)
     (send_script h) (ctor_script h).

Definition set_reconnectAttempts (v : nat) (h : t) : t :=
  mk (ws h) v (maxReconnectAttempts h) (reconnectDelay h)
     (isConnecting h) (messageQueue h) (detached h) (timers h)
     (send_script h) (ctor_script h).

Definition set_isConnecting (v : bool) (h : t) : t :=
  mk (ws h) (reconnectAttempts h) (maxReconnectAttempts h) (reconnectDelay h)
     v (messageQueue h) (detached h) (timers h)
     (send_script h) (ctor_script h).

Definition set_messageQueue (v : list Message) (h : t) : t :=
  mk (ws h) (reconnectAttempts h) (maxReconnectAttempts h) (reconnectDelay h)
     (isConnecting h) v (detached h) (timers h)
     (send_script h) (ctor_script h).

Definition set_detached (v : list WebSocket) (h : t) : t :=
  mk (ws h) (reconnectAttempts h) (maxReconnectAttempts h) (reconnectDelay h)
     (isConnecting h) (messageQueue h) v (timers h)
     (send_script h) (ctor_script h).

Definition set_timers (v : list Q) (h : t) : t :=
  mk (ws h) (reconnectAttempts h) (maxReconnectAttempts h) (reconnectDelay h)
     (isConnecting h) (messageQueue h) (detached h) v
     (send_script h) (ctor_script h).

Definition set_send_script (v : list bool) (h : t) : t :=
  mk (ws h) (reconnectAttempts h) (maxReconnectAttempts h) (reconnectDelay h)
     (isConnecting h) (messageQueue h) (detached h) (timers h)
     v (ctor_script h).

Definition set_ctor_script (v : list bool) (h : t) : t :=
  mk (ws h) (reconnectAttempts h) (maxReconnectAttempts h) (reconnectDelay h)
     (isConnecting h) (messageQueue h) (detached h) (timers h)
     (send_script h) v.

(** [this.ws && this.ws.readyState === WebSocket.OPEN] *)
Definition connected (h : t) : bool :=
  match ws h with
  | Some sock => is_open (readyState sock)
  | None => false
  end.

(** What the current socket has transmitted. *)
Definition transmitted (h : t) : list Message :=
  match ws h with
  | Some sock => sent sock
  | None => []
  end.

(** [handleReconnect]: give up at the cap, otherwise count the attempt and
    arm a timer after [reconnectDelay * Math.pow(1.5, attempts - 1)]. *)
Definition handleReconnect (h : t) : t :=
  if (maxReconnectAttempts h <=? reconnectAttempts h)%nat then h
  else
    let h1 := set_reconnectAttempts (S (reconnectAttempts h)) h in
    let delay :=
      (reconnectDelay h1 * (3 # 2) ^ (Z.of_nat (reconnectAttempts h1) - 1))%Q in
    set_timers (timers h1 ++ [delay]) h1.

(** [connect]: nothing while [isConnecting]; otherwise raise the flag and
    replace [this.ws] by a fresh socket.  If the constructor throws, the
    [catch] goes to [handleReconnect]. *)
Definition connect (h : t) : t :=
  if isConnecting h then h
  else
    let h1 := set_isConnecting true h in
    match ctor_script h1 with
    | true :: rest => handleReconnect (set_ctor_script rest h1)
    | outcomes =>
        let h2 := set_ctor_script (tail outcomes) h1 in
        let h3 := set_detached (option_list (ws h2) ++ detached h2) h2 in
        set_ws (Some (mkWebSocket CONNECTING [])) h3
    end.

(** The constructor: field defaults, then [this.connect()]. *)
Definition new (send_outcomes ctor_outcomes : list bool) : t :=
  connect (mk None 0 5 3000 false [] [] [] send_outcomes ctor_outcomes).

(** [sendMessage]: queue when there is no open socket; otherwise try to
    send, and on a throw push the message onto the queue. *)
Definition sendMessage (message : Message) (h : t) : t :=
  match ws h with
  | Some sock =>
      if is_open (readyState sock) then
        match send_script h with
        | true :: rest =>
            set_messageQueue (messageQueue h ++ [message])
              (set_send_script rest h)
        | outcomes =>
            set_ws (Some (mkWebSocket (readyState sock) (sent sock ++ [message])))
              (set_send_script (tail outcomes) h)
        end
      else set_messageQueue (messageQueue h ++ [message]) h
  | None => set_messageQueue (messageQueue h ++ [message]) h
  end.

(** The loop of [onopen]:
    [while (queue.length > 0) sendMessage(queue.shift())].
    [None]: the loop is still running when the fuel is spent. *)
Fixpoint drain (fuel : nat) (h : t) : option t :=
  match messageQueue h with
  | [] => Some h
  | message :: rest =>
      match fuel with
      | O => None
      | S fuel' => drain fuel' (sendMessage message (set_messageQueue rest h))
      end
  end.

(** [ws.onopen] *)
Definition onopen (fuel : nat) (h : t) : option t :=
  drain fuel (set_reconnectAttempts 0 (set_isConnecting false h)).

(** [ws.onclose] *)
Definition onclose (h : t) : t :=
  handleReconnect (set_isConnecting false h).

(** The callback armed by [handleReconnect]. *)
Definition ontimer (h : t) : t :=
  if isConnecting h then h else connect h.

Definition set_readyState (r : ReadyState) (h : t) : t :=
  match ws h with
  | Some sock => set_ws (Some (mkWebSocket r (sent sock))) h
  | None => h
  end.

(** Browser events on the current socket: the socket changes state, then
    its handler runs to completion. *)
Definition socket_opens (fuel : nat) (h : t) : option t :=
  onopen fuel (set_readyState OPEN h).

Definition socket_closes (h : t) : t :=
  onclose (set_readyState CLOSED h).

(** The next [n] send outcomes of a script hold no throw. *)
Definition quiet (n : nat) (script : list bool) : bool :=
  forallb negb (take n script).

(** Several caller-initiated sends, in call order. *)
Definition sendMessages (messages : list Message) (h : t) : t :=
  foldl (fun acc message => sendMessage message acc) h messages.

End WebSocketHandler.

(* ===================================================================== *)
(** * survey-manager.js : SurveyManager *)
(* ===================================================================== *)

Module SurveyManager.

(** [question.validation]; an absent bound is [None]. *)
Record Validation : Type := mkValidation {
  min_select : option Z;
  max_select : option Z;
  min_length : option Z;
  max_length : option Z;
  min : option Z;
  max : option Z
}.

(** [question.validation || {}] *)
Definition no_validation : Validation :=
  mkValidation None None None None None None.

(** A question, with [question.options] reduced to the option values
    ([None]: the question has no such array). *)
Record Question : Type := mkQuestion {
  question_id : string;
  title : string;
  required : bool;
  type : string;
  validation : option Validation;
  options : option (list string)
}.

Record SurveySection : Type := mkSection {
  questions : list Question
}.

Record Survey : Type := mkSurvey {
  sections : list SurveySection
}.

(** A parsed inbound frame, with the fields the client reads.  An absent
    field is [None].  A survey that is present is an object with its array
    of sections, each with its array of questions; a frame whose survey
    lacks one of these arrays is outside the model.  The [analysis] and
    [plan] payloads are kept opaque, each with the one thing the client's
    behaviour depends on: whether it has the parts its render function
    reads.  [renderAnalysis] reads [analysis.overview] with its
    [knowledge_level], [interest_areas] (an array) and
    [learning_objectives]; [renderPlan] reads [plan.program_info] and
    [plan.structure.sections] (an array) with each section's
    [content.topics] (an array); reading through a missing part throws.
    The fields that only reach the log or the dialogue markup ([status],
    [message], [data], [user], [text]) are left out. *)
Record Response : Type := mkResponse {
  error : option string;
  kind : option string;          (* the [type] field *)
  survey : option Survey;
  survey_id : option string;
  analysis_payload : option string;
  plan_payload : option string;
  audio_file : option string;
  analysis_renders : bool;       (* [analysis] has what [renderAnalysis] reads *)
  plan_renders : bool            (* [plan] has what [renderPlan] reads *)
}.

(** The manager's fields, followed by what it has put on the page: the
    status line, the [alert] boxes raised and the per-question error
    fields filled by [showError], oldest first. *)
Record t : Type := mk {
  currentSurvey : option Survey;
  surveyResponses : gmap string JS.Value;
  surveyId : option string;
  analysis : option string;
  plan : option string;
  currentStep : nat;
  (* page *)
  statusText : string;
  alerts : list string;
  fieldErrors : list (string * string)
}.

(** The six fields of the object, without the page. *)
Definition session (s : t) :=
  (currentSurvey s, surveyResponses s, surveyId s, analysis s, plan s,
   currentStep s).

Definition set_currentSurvey (v : option Survey) (s : t) : t :=
  mk v (surveyResponses s) (surveyId s) (analysis s) (plan s)
     (currentStep s) (statusText s) (alerts s) (fieldErrors s).

Definition set_surveyResponses (v : gmap string JS.Value) (s : t) : t :=
  mk (currentSurvey s) v (surveyId s) (analysis s) (plan s)
     (currentStep s) (statusText s) (alerts s) (fieldErrors s).

Definition set_surveyId (v : option string) (s : t) : t :=
  mk (currentSurvey s) (surveyResponses s) v (analysis s) (plan s)
     (currentStep s) (statusText s) (alerts s) (fieldErrors s).

Definition set_analysis (v : option string) (s : t) : t :=
  mk (currentSurvey s) (surveyResponses s) (surveyId s) v (plan s)
     (currentStep s) (statusText s) (alerts s) (fieldErrors s).

Definition set_plan (v : option string) (s : t) : t :=
  mk (currentSurvey s) (surveyResponses s) (surveyId s) (analysis s) v
     (currentStep s) (statusText s) (alerts s) (fieldErrors s).

(** [updateProgressBar(step)] *)
Definition updateProgressBar (step : nat) (s : t) : t :=
  mk (currentSurvey s) (surveyResponses s) (surveyId s) (analysis s) (plan s)
     step (statusText s) (alerts s) (fieldErrors s).

(** [updateStatus(message)] *)
Definition updateStatus (message : string) (s : t) : t :=
  mk (currentSurvey s) (surveyResponses s) (surveyId s) (analysis s) (plan s)
     (currentStep s) message (alerts s) (fieldErrors s).

(** [alert(message)] *)
Definition alert (message : string) (s : t) : t :=
  mk (currentSurvey s) (surveyResponses s) (surveyId s) (analysis s) (plan s)
     (currentStep s) (statusText s) (alerts s ++ [message]) (fieldErrors s).

(** [showError(questionId, message)].  The error field of the question is
    taken to be on the page, as it is once [renderSurvey] has run to its
    end on the current survey. *)
Definition showError (questionId message : string) (s : t) : t :=
  mk (currentSurvey s) (surveyResponses s) (surveyId s) (analysis s) (plan s)
     (currentStep s) (statusText s) (alerts s)
     (fieldErrors s ++ [(questionId, message)]).

(** [handleError(message)] *)
Definition handleError (message : string) (s : t) : t :=
  alert message (updateStatus ("錯誤: " +:+ message) s).

(** The constructor's field values. *)
Definition new : t := mk None ∅ None None None 1 "" [] [].

(** [reset()] *)
Definition reset (s : t) : t :=
  updateStatus ""
    (mk None ∅ None None None 1 (statusText s) (alerts s) (fieldErrors s)).

(** ** The survey on the page *)

(** A number assigned to a DOM attribute of type [long]: taken modulo
    [2^32] into the signed range. *)
Definition ToInt32 (z : Z) : Z := ((z + 2 ^ 31) mod 2 ^ 32 - 2 ^ 31)%Z.

(** [createQuestionInput(question)]: the [name] attributes of the inputs
    it creates, in order, or [None] when it throws.  A choice question gets
    one input per option, each named after the question, and
    [question.options.forEach] throws when there is no such array.  A text
    question gets one [textarea] named after it; with a [validation] block
    its [maxLength] is set from [max_length] first (an absent one gives 0),
    and the DOM refuses a negative [maxLength] with an exception.  The
    stars of a rating carry no [name], and any other type gets no input. *)
Definition createQuestionInput (question : Question) : option (list string) :=
  if (type question =? "single_choice") || (type question =? "multiple_choice")
  then
    match options question with
    | Some values => Some ((fun _ => question_id question) <$> values)
    | None => None
    end
  else if type question =? "text" then
    match validation question with
    | Some v =>
        if (ToInt32 (default 0%Z (max_length v)) <? 0)%Z then None
        else Some [question_id question]
    | None => Some [question_id question]
    end
  else Some [].

(** [createSection(section)]: the names of its inputs, or [None] when a
    question of the section throws. *)
Fixpoint createQuestions (qs : list Question) : option (list string) :=
  match qs with
  | [] => Some []
  | question :: rest =>
      match createQuestionInput question with
      | Some names =>
          match createQuestions rest with
          | Some more => Some (names ++ more)
          | None => None
          end
      | None => None
      end
  end.

Definition createSection (section : SurveySection) : option (list string) :=
  createQuestions (questions section).

(** The loop of [renderSurvey] over the sections: each section is built in
    full and then appended to the container, so a throw leaves the
    sections before it on the page.  The result is the names of the inputs
    on the page and whether the loop ran to its end. *)
Fixpoint renderSections (ss : list SurveySection) : list string * bool :=
  match ss with
  | [] => ([], true)
  | section :: rest =>
      match createSection section with
      | Some names =>
          let '(more, finished) := renderSections rest in
          (names ++ more, finished)
      | None => ([], false)
      end
  end.

(** [renderSurvey()]: it empties the container, then throws at
    [this.currentSurvey.title] when there is no survey. *)
Definition renderSurvey (current : option Survey) : list string * bool :=
  match current with
  | Some survey => renderSections (sections survey)
  | None => ([], false)
  end.

(** The [name] attributes in the document.  [index.html] has one of its
    own, on its [meta] element; the others are the inputs of the survey
    container, which only [renderSurvey] fills and which it and [reset]
    empty: they are those [renderSurvey] made for [currentSurvey]. *)
Definition page_names (s : t) : list string :=
  "viewport" :: fst (renderSurvey (currentSurvey s)).

(** [handleRatingClick(questionId, value)].  It looks up
    [document.querySelector('[name="questionId"]').parentElement] before it
    stores the value: when no element carries the name, [querySelector]
    gives [null], the property read throws and nothing is stored.  (A
    [questionId] is taken not to hold a double quote or a backslash, which
    would change the selector.) *)
Definition handleRatingClick (questionId : string) (value : Z) (s : t) : t :=
  if existsb (String.eqb questionId) (page_names s) then
    set_surveyResponses (<[questionId := JS.Number value]> (surveyResponses s)) s
  else s.

(** The line feed of the [alert] text. *)
Definition nl : string := String (Ascii.ascii_of_nat 10) "".

(** The message of the required-field check. *)
Definition required_message (question : Question) : string :=
  title question +:+ " 為必填項目".

Section Validation.

(** The number a string converts to in a comparison ([None] for NaN).
    The validator compares a response with a numeric bound only in
    [rating] questions; the conversion is left to the caller. *)
Variable StringToNumber : string -> option Z.

Definition ToNumber (v : JS.Value) : option Z :=
  match v with
  | JS.Undefined | JS.NaN => None
  | JS.Null => Some 0%Z
  | JS.Bool b => Some (if b then 1 else 0)%Z
  | JS.Number z => Some z
  | JS.Str s => StringToNumber s
  | JS.Arr items => StringToNumber (String.concat "," items)
  end.

(** [this.surveyResponses[question.question_id]] *)
Definition response_of (s : t) (question : Question) : JS.Value :=
  default JS.Undefined (surveyResponses s !! question_id question).

Definition bound (n : option Z) : string := pretty (default 0%Z n).

(** [validateQuestion(question)]: the error message, or [None] for
    [null]. *)
Definition validateQuestion (s : t) (question : Question) : option string :=
  let response := response_of s question in
  if required question && JS.falsy response then
    Some (required_message question)
  else if JS.falsy response then None
  else
    let v := default no_validation (validation question) in
    if String.eqb (type question) "multiple_choice" then
      let selectedCount := JS.length response in
      if JS.truthy_num (min_select v) && JS.lt selectedCount (min_select v) then
        Some (title question +:+ " 至少選擇 " +:+ bound (min_select v) +:+ " 項")
      else if JS.truthy_num (max_select v) && JS.gt selectedCount (max_select v) then
        Some (title question +:+ " 最多選擇 " +:+ bound (max_select v) +:+ " 項")
      else None
    else if String.eqb (type question) "text" then
      if JS.truthy_num (min_length v)
         && JS.lt (JS.length response) (min_length v) then
        Some (title question +:+ " 最少需要 " +:+ bound (min_length v) +:+ " 個字")
      else if JS.truthy_num (max_length v)
              && JS.gt (JS.length response) (max_length v) then
        Some (title question +:+ " 最多允許 " +:+ bound (max_length v) +:+ " 個字")
      else None
    else if String.eqb (type question) "rating" then
      if JS.truthy_num (min v) && JS.lt (ToNumber response) (min v) then
        Some (title question +:+ " 最小評分為 " +:+ bound (min v))
      else if JS.truthy_num (max v) && JS.gt (ToNumber response) (max v) then
        Some (title question +:+ " 最大評分為 " +:+ bound (max v))
      else None
    else None.

(** [errors.add(error)] on a [Set]: insertion order, no repeats. *)
Definition set_add (error : string) (errors : list string) : list string :=
  if bool_decide (error ∈ errors) then errors else errors ++ [error].

(** The loop variables of [validateResponses]. *)
Record Checking : Type := mkChecking {
  isValid : bool;
  errors : list string;
  manager : t
}.

(** The body of the inner [forEach]. *)
Definition check (c : Checking) (question : Question) : Checking :=
  match validateQuestion (manager c) question with
  | Some error =>
      if String.eqb error "" then c
      else mkChecking false (set_add error (errors c))
             (showError (question_id question) error (manager c))
  | None => c
  end.

Definition check_section (c : Checking) (section : SurveySection) : Checking :=
  foldl check c (questions section).

(** [validateResponses()]: the result and the manager afterwards.
    [None]: it throws, there being no [currentSurvey]. *)
Definition validateResponses (s : t) : option (bool * t) :=
  match currentSurvey s with
  | None => None
  | Some survey =>
      let c := foldl check_section (mkChecking true [] s) (sections survey) in
      if isValid c then Some (true, manager c)
      else
        Some (false,
              alert ("請檢查以下問題:" +:+ nl +:+ String.concat nl (errors c))
                (manager c))
  end.

(** The questions of a survey in the order the two [forEach] loops
    visit them. *)
Definition all_questions (survey : Survey) : list Question :=
  concat (questions <$> sections survey).

(** The offending questions of a list, each with its message. *)
Definition violations (s : t) (qs : list Question) : list (string * string) :=
  omap (fun question =>
          (fun error => (question_id question, error))
            <$> validateQuestion s question) qs.

(** [submitSurvey()], on the manager and the [wsHandler] it sends
    through.  A throw of [validateResponses] lands in the [catch]. *)
Definition submitSurvey
    (sh : t * WebSocketHandler.t) : t * WebSocketHandler.t :=
  let '(s, h) := sh in
  match validateResponses s with
  | None => (handleError "提交問卷失敗" s, h)
  | Some (false, s1) => (s1, h)
  | Some (true, s1) =>
      (updateStatus "提交問卷中..." s1,
       WebSocketHandler.sendMessage
         (survey_submit (surveyId s1) (surveyResponses s1)) h)
  end.

End Validation.

(** [startSurveyProcess(topic)] *)
Definition startSurveyProcess (topic : string)
    (sh : t * WebSocketHandler.t) : t * WebSocketHandler.t :=
  let '(s, h) := sh in
  (updateStatus "生成問卷中..." s,
   WebSocketHandler.sendMessage (survey_generate topic) h).

(** [handleSurveyGenerated(data)]: store the survey and its id, render,
    then update the status and the step.  When [renderSurvey] throws (no
    survey in the frame, or a question whose input cannot be built) the
    [catch] reports it instead. *)
Definition handleSurveyGenerated (data : Response) (s : t) : t :=
  let s1 := set_surveyId (survey_id data) (set_currentSurvey (survey data) s) in
  if snd (renderSurvey (currentSurvey s1)) then
    updateProgressBar 1 (updateStatus "請完成問卷" s1)
  else handleError "處理問卷失敗" s1.

(** [renderAnalysis()] runs to its end: there is an analysis and it has
    the parts that are read. *)
Definition renderAnalysis (data : Response) (s : t) : bool :=
  match analysis s with
  | Some _ => analysis_renders data
  | None => false
  end.

(** [handleAnalysisReceived(data)]: store, render, then ask for the plan.
    When [renderAnalysis] throws, the [catch] reports it and nothing is
    sent. *)
Definition handleAnalysisReceived (data : Response)
    (sh : t * WebSocketHandler.t) : t * WebSocketHandler.t :=
  let '(s, h) := sh in
  let s1 := set_analysis (analysis_payload data) s in
  if renderAnalysis data s1 then
    (updateProgressBar 2 (updateStatus "分析完成" s1),
     WebSocketHandler.sendMessage (program_plan (surveyId s1)) h)
  else (handleError "處理分析結果失敗" s1, h).

(** [renderPlan()] runs to its end. *)
Definition renderPlan (data : Response) (s : t) : bool :=
  match plan s with
  | Some _ => plan_renders data
  | None => false
  end.

(** [handlePlanReceived(data)].  When [renderPlan] throws, the [catch]
    reports it. *)
Definition handlePlanReceived (data : Response) (s : t) : t :=
  let s1 := set_plan (plan_payload data) s in
  if renderPlan data s1 then updateProgressBar 3 (updateStatus "規劃完成" s1)
  else handleError "處理節目規劃失敗" s1.

End SurveyManager.

(* ===================================================================== *)
(** * audio-manager.js : AudioManager *)
(* ===================================================================== *)

Module AudioManager.

(** An [Audio] element.  Elements are compared by identity in the event
    listeners ([audio === this.currentAudio]); each gets the next free
    number when it is built.  Its [messageElement] is the dialogue line
    [handleSectionReady] builds for it, always present, and only restyled. *)
Record Audio : Type := mkAudio {
  audio_id : nat;
  src : string
}.

Definition same_audio (a b : Audio) : bool := (audio_id a =? audio_id b)%nat.

(** What the manager writes through [debugLogger]. *)
Inductive LogEntry : Type :=
| AudioAdded (audioUrl : string)
| PlayStarted (position total : Z)
| QueueEnded
| PlayFailed
| LoadFailed (audioUrl : string)
| Paused
| Resumed
| ResumeFailed
| WasReset.

(** The manager's fields, followed by the browser side: the number of the
    next element, the outcomes of the coming [audio.play()] calls ([true]
    rejects; none left: resolves) and the debug log, oldest first. *)
Record t : Type := mk {
  audioQueue : list Audio;
  currentAudioIndex : Z;
  isPlaying : bool;
  currentAudio : option Audio;
  (* browser side *)
  next_id : nat;
  play_script : list bool;
  log : list LogEntry
}.

Definition set_audioQueue (v : list Audio) (p : t) : t :=
  mk v (currentAudioIndex p) (isPlaying p) (currentAudio p)
     (next_id p) (play_script p) (log p).

Definition set_currentAudioIndex (v : Z) (p : t) : t :=
  mk (audioQueue p) v (isPlaying p) (currentAudio p)
     (next_id p) (play_script p) (log p).

Definition set_isPlaying (v : bool) (p : t) : t :=
  mk (audioQueue p) (currentAudioIndex p) v (currentAudio p)
     (next_id p) (play_script p) (log p).

Definition set_currentAudio (v : option Audio) (p : t) : t :=
  mk (audioQueue p) (currentAudioIndex p) (isPlaying p) v
     (next_id p) (play_script p) (log p).

Definition set_next_id (v : nat) (p : t) : t :=
  mk (audioQueue p) (currentAudioIndex p) (isPlaying p) (currentAudio p)
     v (play_script p) (log p).

Definition set_play_script (v : list bool) (p : t) : t :=
  mk (audioQueue p) (currentAudioIndex p) (isPlaying p) (currentAudio p)
     (next_id p) v (log p).

Definition debug (entry : LogEntry) (p : t) : t :=
  mk (audioQueue p) (currentAudioIndex p) (isPlaying p) (currentAudio p)
     (next_id p) (play_script p) (log p ++ [entry]).

(** The constructor's field values. *)
Definition new (play_outcomes : list bool) : t :=
  mk [] (-1) false None 0 play_outcomes [].

(** [this.audioQueue[i]]: [undefined] outside the array. *)
Definition at_index (queue : list Audio) (i : Z) : option Audio :=
  if (i <? 0)%Z then None else queue !! Z.to_nat i.

Definition queue_length (p : t) : Z := Z.of_nat (length (audioQueue p)).

(** [addAudio(audioUrl, messageElement)]: build the element, attach its
    listeners, push it on the queue. *)
Definition addAudio (audioUrl : string) (p : t) : t :=
  let audio := mkAudio (next_id p) audioUrl in
  debug (AudioAdded audioUrl)
    (set_audioQueue (audioQueue p ++ [audio]) (set_next_id (S (next_id p)) p)).

(** [playNext()].  The [catch] calls [playNext] again; [fuel] bounds these
    inner calls and [None] means it was spent.  The [await] is taken in
    one step, as when no other event runs while [play()] settles; the
    handlers that run in between are the matter of [AudioEvents] below. *)
Fixpoint playNext_loop (fuel : nat) (p : t) : option t :=
  let again p' :=
    match fuel with
    | O => None
    | S fuel' => playNext_loop fuel' (debug PlayFailed p')
    end in
  let p1 := set_currentAudioIndex (currentAudioIndex p + 1) p in
  if (currentAudioIndex p1 <? queue_length p1)%Z then
    match at_index (audioQueue p1) (currentAudioIndex p1) with
    | Some audio =>
        let p2 := set_currentAudio (Some audio) p1 in
        match play_script p2 with
        | true :: rest => again (set_play_script rest p2)
        | outcomes =>
            Some (debug (PlayStarted (currentAudioIndex p2 + 1) (queue_length p2))
                    (set_isPlaying true (set_play_script (tail outcomes) p2)))
        end
    | None =>
        (* [audio] is undefined: reading [audio.messageElement] throws *)
        again (set_currentAudio None p1)
    end
  else
    Some (debug QueueEnded
            (set_currentAudio None
               (set_isPlaying false (set_currentAudioIndex (-1) p1)))).

(** Inner calls [playNext] can need: one per element after the cursor. *)
Definition playNext_fuel (p : t) : nat :=
  Z.to_nat (queue_length p - 1 - currentAudioIndex p).

Definition playNext (p : t) : option t := playNext_loop (playNext_fuel p) p.

(** The [ended] listener of an element. *)
Definition onended (audio : Audio) (p : t) : option t :=
  match currentAudio p with
  | Some current => if same_audio audio current then playNext p else Some p
  | None => Some p
  end.

(** The [error] listener of an element: it writes to the log, and that is
    all. *)
Definition onerror (audio : Audio) (p : t) : t :=
  debug (LoadFailed (src audio)) p.

(** [pauseCurrent()] *)
Definition pauseCurrent (p : t) : t :=
  match currentAudio p with
  | Some _ => debug Paused (set_isPlaying false p)
  | None => p
  end.

(** [resumeCurrent()], its [await] taken in one step as well. *)
Definition resumeCurrent (p : t) : t :=
  match currentAudio p with
  | Some _ =>
      match play_script p with
      | true :: rest => debug ResumeFailed (set_play_script rest p)
      | outcomes =>
          debug Resumed (set_isPlaying true (set_play_script (tail outcomes) p))
      end
  | None => p
  end.

(** [togglePlayAll()] *)
Definition togglePlayAll (p : t) : option t :=
  if isPlaying p then Some (pauseCurrent p)
  else if (currentAudioIndex p =? -1)%Z
          || (queue_length p - 1 <=? currentAudioIndex p)%Z then
    playNext (set_currentAudioIndex (-1) p)
  else Some (resumeCurrent p).

(** [togglePause()] *)
Definition togglePause (p : t) : t :=
  if isPlaying p then pauseCurrent p else resumeCurrent p.

(** [reset()] *)
Definition reset (p : t) : t :=
  debug WasReset
    (set_currentAudio None
       (set_isPlaying false (set_currentAudioIndex (-1) (set_audioQueue [] p)))).

End AudioManager.

(* ===================================================================== *)
(** * file-upload-manager.js : FileUploadManager *)
(* ===================================================================== *)

Module FileUploadManager.

(** A value of [this.files]: the server's description of the file with
    the two fields [addFileToList] adds. *)
Record File : Type := mkFile {
  original_name : string;
  size : Z;
  file_path : string;
  processed : bool;
  context : JS.Value
}.

(** [this.files] is keyed by [file_id]; [activeFile] is [null] or an id. *)
Record t : Type := mk {
  files : gmap string File;
  activeFile : option string
}.

Definition new : t := mk ∅ None.

(** What the server returns for an upload or lists under [/files]. *)
Record FileInfo : Type := mkFileInfo {
  file_id : string;
  info_name : string;
  info_size : Z;
  info_path : string
}.

(** [addFileToList(fileInfo)] *)
Definition addFileToList (fileInfo : FileInfo) (m : t) : t :=
  mk (<[file_id fileInfo :=
          mkFile (info_name fileInfo) (info_size fileInfo) (info_path fileInfo)
                 false JS.Null]> (files m))
     (activeFile m).

(** [toggleFileContext(fileId)] *)
Definition toggleFileContext (fileId : string) (m : t) : t :=
  mk (files m)
     (if bool_decide (activeFile m = Some fileId) then None else Some fileId).

(** [deleteFile(fileId)], [ok] being [response.ok] of the DELETE request. *)
Definition deleteFile (fileId : string) (ok : bool) (m : t) : t :=
  if ok then
    mk (delete fileId (files m))
       (if bool_decide (activeFile m = Some fileId) then None else activeFile m)
  else m.

(** [updateFileStatus(fileId, status, context = null)] *)
Definition updateFileStatus
    (fileId status : string) (ctx : JS.Value) (m : t) : t :=
  match files m !! fileId with
  | Some file =>
      let file1 :=
        mkFile (original_name file) (size file) (file_path file)
               (String.eqb status "processed") (context file) in
      let file2 :=
        if JS.truthy ctx then
          mkFile (original_name file1) (size file1) (file_path file1)
                 (processed file1) ctx
        else file1 in
      mk (<[fileId := file2]> (files m)) (activeFile m)
  | None => m
  end.

(** [getActiveFileContext()] *)
Definition getActiveFileContext (m : t) : JS.Value :=
  match activeFile m with
  | None => JS.Null
  | Some fileId =>
      if String.eqb fileId "" then JS.Null
      else
        match files m !! fileId with
        | Some file => context file
        | None => JS.Null
        end
  end.

(** The calls that change a registry. *)
Inductive Call : Type :=
| call_addFileToList (fileInfo : FileInfo)
| call_toggleFileContext (fileId : string)
| call_deleteFile (fileId : string) (ok : bool)
| call_updateFileStatus (fileId status : string) (ctx : JS.Value).

Definition run (m : t) (c : Call) : t :=
  match c with
  | call_addFileToList fileInfo => addFileToList fileInfo m
  | call_toggleFileContext fileId => toggleFileContext fileId m
  | call_deleteFile fileId ok => deleteFile fileId ok m
  | call_updateFileStatus fileId status ctx => updateFileStatus fileId status ctx m
  end.

(** The registry after a history of calls on a fresh manager. *)
Definition after (history : list Call) : t := foldl run new history.

(** A status update that reports a finished file, as the
    [file_processed] frame handler issues it. *)
Definition reports_processed (c : Call) : bool :=
  match c with
  | call_updateFileStatus _ status _ => String.eqb status "processed"
  | _ => true
  end.

(** The reading of the registry contract: the payload of the active
    record, [null] when none is active or the record is not processed. *)
Definition active_context_of_processed (m : t) : JS.Value :=
  match activeFile m with
  | None => JS.Null
  | Some fileId =>
      if String.eqb fileId "" then JS.Null
      else
        match files m !! fileId with
        | Some file => if processed file then context file else JS.Null
        | None => JS.Null
        end
  end.

(** A record that is not marked processed carries no context. *)
Definition unprocessed_have_no_context (m : t) : Prop :=
  forall fileId file,
    files m !! fileId = Some file ->
    processed file = false -> context file = JS.Null.

End FileUploadManager.

(* ===================================================================== *)
(** * websocket-handler.js : inbound dispatch *)
(* ===================================================================== *)

Module Client.

(** The page's globals.  [surveyManager] is [null] until the page has
    loaded; the two flags say whether [window.surveyManager] and
    [window.audioManager] are set, which the handler tests before it
    touches them. *)
Record t : Type := mk {
  wsHandler : WebSocketHandler.t;
  surveyManager : option SurveyManager.t;
  audioManager : AudioManager.t;
  window_surveyManager : bool;
  window_audioManager : bool
}.

Definition set_surveyManager (v : option SurveyManager.t) (c : t) : t :=
  mk (wsHandler c) v (audioManager c)
     (window_surveyManager c) (window_audioManager c).

Definition set_audioManager (v : AudioManager.t) (c : t) : t :=
  mk (wsHandler c) (surveyManager c) v
     (window_surveyManager c) (window_audioManager c).

(** A string field used as a condition: absent and empty are falsy. *)
Definition present (field : option string) : bool :=
  match field with
  | Some s => negb (String.eqb s "")
  | None => false
  end.

(** [handleSectionReady(response)] *)
Definition handleSectionReady (response : SurveyManager.Response) (c : t) : t :=
  match SurveyManager.audio_file response with
  | Some path =>
      if negb (String.eqb path "") && window_audioManager c then
        set_audioManager
          (AudioManager.addAudio ("http://localhost:8000" +:+ path)
             (audioManager c)) c
      else c
  | None => c
  end.

(** [handleComplete()] *)
Definition handleComplete (c : t) : t :=
  if window_surveyManager c then
    match surveyManager c with
    | Some s => set_surveyManager (Some (SurveyManager.reset s)) c
    | None => c
    end
  else c.

(** [ws.onmessage]; [None] is a frame [JSON.parse] rejects.  Whatever is
    not listed below only reaches the log. *)
Definition onmessage (frame : option SurveyManager.Response) (c : t) : t :=
  match frame with
  | None => c
  | Some response =>
      if present (SurveyManager.error response) then c
      else
        match SurveyManager.kind response with
        | Some type =>
            if String.eqb type "survey_generated" then
              match surveyManager c with
              | Some s =>
                  set_surveyManager
                    (Some (SurveyManager.handleSurveyGenerated response s)) c
              | None => c
              end
            else if String.eqb type "survey_analysis" then
              match surveyManager c with
              | Some s =>
                  let '(s', h') :=
                    SurveyManager.handleAnalysisReceived response
                      (s, wsHandler c) in
                  mk h' (Some s') (audioManager c)
                     (window_surveyManager c) (window_audioManager c)
              | None => c
              end
            else if String.eqb type "program_plan" then
              match surveyManager c with
              | Some s =>
                  set_surveyManager
                    (Some (SurveyManager.handlePlanReceived response s)) c
              | None => c
              end
            else if String.eqb type "section_ready" then
              handleSectionReady response c
            else if String.eqb type "complete" then handleComplete c
            else c
        | None => c
        end
  end.

End Client.

(* ===================================================================== *)
(** * Scenarios *)
(* ===================================================================== *)

(** Concrete states and histories the properties below are run on. *)

Module TransportScenario.

(** A handler just built: its first socket is connecting. *)
Definition fresh (send_outcomes : list bool) : WebSocketHandler.t :=
  WebSocketHandler.new send_outcomes [].

(** The same handler once that socket has opened. *)
Definition opened (send_outcomes : list bool) : WebSocketHandler.t :=
  WebSocketHandler.mk
    (Some (WebSocketHandler.mkWebSocket WebSocketHandler.OPEN []))
    0 5 3000 false [] [] [] send_outcomes [].

(** An open handler on which the send of ["a"] has thrown. *)
Definition after_failed_send : WebSocketHandler.t :=
  WebSocketHandler.sendMessage (text "a") (opened [true; true]).

End TransportScenario.

Module SurveyScenario.
Import SurveyManager.

Definition q_name : Question :=
  mkQuestion "q1" "Name" true "text"
    (Some (mkValidation None None (Some 2%Z) (Some 10%Z) None None)) None.

Definition q_score : Question :=
  mkQuestion "q2" "Score" true "rating"
    (Some (mkValidation None None None None (Some 1%Z) (Some 5%Z))) None.

Definition q_topics : Question :=
  mkQuestion "q3" "Topics" false "multiple_choice"
    (Some (mkValidation (Some 1%Z) (Some 2%Z) None None None None))
    (Some ["a"; "b"; "c"; "d"]).

Definition q_notes : Question :=
  mkQuestion "q4" "Notes" false "text" None None.

Definition survey1 : Survey :=
  mkSurvey [mkSection [q_name; q_score]; mkSection [q_topics; q_notes]].

Definition survey2 : Survey := mkSurvey [mkSection [q_notes]].

(** No conversion of strings to numbers is needed in the scenarios. *)
Definition no_number (s : string) : option Z := None.

(** A manager showing [survey1]: the name is missing, the score is 0 and
    three topics are ticked where two are allowed. *)
Definition answering : t :=
  mk (Some survey1)
     (<["q2" := JS.Number 0]> (<["q3" := JS.Arr ["a"; "b"; "c"]]> ∅))
     (Some "s1") None None 1 "請完成問卷" [] [].

End SurveyScenario.

Module ClientScenario.
Import SurveyManager.

Definition generated1 : Response :=
  mkResponse None (Some "survey_generated")
    (Some SurveyScenario.survey1) (Some "s1") None None None false false.

(** The payloads are named, not spelled out: these two stand for an
    analysis and a plan that have every part the render functions read. *)
Definition analysis1 : Response :=
  mkResponse None (Some "survey_analysis") None None (Some "beginner") None None
    true false.

Definition plan1 : Response :=
  mkResponse None (Some "program_plan") None None None (Some "three parts") None
    false true.

(** A second [survey_generated] frame, for another survey. *)
Definition generated2 : Response :=
  mkResponse None (Some "survey_generated")
    (Some SurveyScenario.survey2) (Some "s2") None None None false false.

Definition receive (c : Client.t) (response : Response) : Client.t :=
  Client.onmessage (Some response) c.

(** The page once loaded and connected. *)
Definition loaded : Client.t :=
  Client.mk (TransportScenario.opened []) (Some SurveyManager.new)
    (AudioManager.new []) false false.

(** The page after the survey, its analysis and the plan have arrived. *)
Definition planned : Client.t :=
  foldl receive loaded [generated1; analysis1; plan1].

End ClientScenario.

Module AudioScenario.
Import AudioManager.

Definition url1 : string := "http://localhost:8000/audio/1.mp3".
Definition url2 : string := "http://localhost:8000/audio/2.mp3".
Definition url3 : string := "http://localhost:8000/audio/3.mp3".

(** One segment queued and playing: it is the last one enqueued. *)
Definition playing_last : t :=
  mk [mkAudio 0 url1] 0 true (Some (mkAudio 0 url1)) 1 []
     [AudioAdded url1; PlayStarted 1 1].

(** Three segments queued, nothing played yet; the next [play()] will
    reject, the one after will resolve. *)
Definition three_queued : t :=
  addAudio url3 (addAudio url2 (addAudio url1 (new [true; false]))).

End AudioScenario.

Module FileScenario.
Import FileUploadManager.

Definition notes : FileInfo := mkFileInfo "f1" "notes.txt" 120 "/uploads/notes.txt".

(** Upload, select, then a status update that is not ['processed'] but
    carries a context. *)
Definition early_context : list Call :=
  [call_addFileToList notes; call_toggleFileContext "f1";
   call_updateFileStatus "f1" "processing" (JS.Str "draft context")].

(** Upload, select, then the file is reported processed with its
    context. *)
Definition processed_context : list Call :=
  [call_addFileToList notes; call_toggleFileContext "f1";
   call_updateFileStatus "f1" "processed" (JS.Str "full context")].

End FileScenario.

(* ===================================================================== *)
(** * The rest of the handler *)
(* ===================================================================== *)

Module WebSocketHandlerRest.
Import WebSocketHandler.

(** [getConnectionStatus()], of the earlier copy of the handler. *)
Definition getConnectionStatus (h : t) : string :=
  match ws h with
  | None => "disconnected"
  | Some sock =>
      match readyState sock with
      | CONNECTING => "connecting"
      | OPEN => "connected"
      | _ => "disconnected"
      end
  end.

(** What [sendMessage] is given: a string, or an object seen as the map of
    its own properties. *)
Inductive Outgoing : Type :=
| OutString (content : string)
| OutObject (fields : gmap string JS.Value).

(** [message.type || 'unknown'] *)
Definition type_or_unknown (fields : gmap string JS.Value) : JS.Value :=
  let type := default JS.Undefined (fields !! "type") in
  if JS.truthy type then type else JS.Str "unknown".

(** [standardizeMessage(message)], [now] being [new Date().toISOString()].
    In the object literal the spread comes last, so the message's own
    properties win over [type] and [timestamp]. *)
Definition standardizeMessage (now : string) (message : Outgoing)
    : gmap string JS.Value :=
  match message with
  | OutString content =>
      <["type" := JS.Str "text"]> (<["content" := JS.Str content]> ∅)
  | OutObject fields =>
      fields ∪ <["type" := type_or_unknown fields]>
                 (<["timestamp" := JS.Str now]> ∅)
  end.

End WebSocketHandlerRest.

(* ===================================================================== *)
(** * Events of the audio manager *)
(* ===================================================================== *)

Module AudioEvents.
Import AudioManager.

(** [playNext] and [resumeCurrent] are [async]: a call runs up to its
    [await audio.play()] and returns; what follows the [await] runs when
    the promise settles, and other handlers run in between.  Here every
    handler runs to its [await] or its end, and the promises settle one by
    one, in any order and either way.  [AudioManager.playNext_loop] is the
    schedule in which each promise settles at once. *)

(** A call that waits at its [await], with the element whose [play()] it
    waits for. *)
Inductive Awaiting : Type :=
| in_playNext (audio : Audio)
| in_resumeCurrent (audio : Audio).

(** The manager and the calls that wait, oldest first. *)
Record Page : Type := mkPage {
  manager : t;
  pending : list Awaiting
}.

Definition set_manager (p : t) (g : Page) : Page := mkPage p (pending g).

(** [playNext()] up to its [await] ([Some audio]: it waits for
    [audio.play()]) or its end.  Reading [audio.messageElement] of an
    [undefined] element throws before the [await]; the [catch] then calls
    [playNext] again, [fuel] bounding these inner calls. *)
Fixpoint playNext_begin (fuel : nat) (p : t) : option (t * option Audio) :=
  let p1 := set_currentAudioIndex (currentAudioIndex p + 1) p in
  if (currentAudioIndex p1 <? queue_length p1)%Z then
    match at_index (audioQueue p1) (currentAudioIndex p1) with
    | Some audio => Some (set_currentAudio (Some audio) p1, Some audio)
    | None =>
        match fuel with
        | O => None
        | S fuel' =>
            playNext_begin fuel' (debug PlayFailed (set_currentAudio None p1))
        end
    end
  else
    Some (debug QueueEnded
            (set_currentAudio None
               (set_isPlaying false (set_currentAudioIndex (-1) p1))),
          None).

(** Inner calls the start of [playNext] can need: one per index below 0. *)
Definition playNext_begin_fuel (p : t) : nat :=
  Z.to_nat (-1 - currentAudioIndex p).

Definition playNext (g : Page) : option Page :=
  match playNext_begin (playNext_begin_fuel (manager g)) (manager g) with
  | Some (p, Some audio) => Some (mkPage p (pending g ++ [in_playNext audio]))
  | Some (p, None) => Some (mkPage p (pending g))
  | None => None
  end.

(** The [ended] listener of an element. *)
Definition onended (audio : Audio) (g : Page) : option Page :=
  match currentAudio (manager g) with
  | Some current => if same_audio audio current then playNext g else Some g
  | None => Some g
  end.

(** [resumeCurrent()] up to its [await]. *)
Definition resumeCurrent (g : Page) : Page :=
  match currentAudio (manager g) with
  | Some audio => mkPage (manager g) (pending g ++ [in_resumeCurrent audio])
  | None => g
  end.

(** [togglePlayAll()] *)
Definition togglePlayAll (g : Page) : option Page :=
  let p := manager g in
  if isPlaying p then Some (set_manager (pauseCurrent p) g)
  else if (currentAudioIndex p =? -1)%Z
          || (queue_length p - 1 <=? currentAudioIndex p)%Z then
    playNext (set_manager (set_currentAudioIndex (-1) p) g)
  else Some (resumeCurrent g).

(** [togglePause()] *)
Definition togglePause (g : Page) : Page :=
  if isPlaying (manager g) then set_manager (pauseCurrent (manager g)) g
  else resumeCurrent g.

(** The promise of the [i]-th waiting call settles and the call goes on:
    after [playNext]'s [await] the flag is raised and the position logged,
    and its [catch] logs the failure and calls [playNext]; after
    [resumeCurrent]'s [await] the flag is raised, and its [catch] only
    logs. *)
Definition settles (i : nat) (resolved : bool) (g : Page) : option Page :=
  match pending g !! i with
  | None => Some g
  | Some waiting =>
      let g1 := mkPage (manager g) (delete i (pending g)) in
      let p := manager g1 in
      match waiting, resolved with
      | in_playNext _, true =>
          Some (set_manager
                  (debug (PlayStarted (currentAudioIndex p + 1) (queue_length p))
                     (set_isPlaying true p)) g1)
      | in_playNext _, false => playNext (set_manager (debug PlayFailed p) g1)
      | in_resumeCurrent _, true =>
          Some (set_manager (debug Resumed (set_isPlaying true p)) g1)
      | in_resumeCurrent _, false =>
          Some (set_manager (debug ResumeFailed p) g1)
      end
  end.

(** What can happen to the audio manager: a segment arrives, an element
    ends or reports an error, a button is pressed, the page resets the
    manager, a promise settles. *)
Inductive Event : Type :=
| ev_addAudio (audioUrl : string)
| ev_ended (audio : Audio)
| ev_error (audio : Audio)
| ev_togglePlayAll
| ev_togglePause
| ev_reset
| ev_settles (i : nat) (resolved : bool).

Definition step (g : Page) (e : Event) : option Page :=
  match e with
  | ev_addAudio audioUrl => Some (set_manager (addAudio audioUrl (manager g)) g)
  | ev_ended audio => onended audio g
  | ev_error audio => Some (set_manager (onerror audio (manager g)) g)
  | ev_togglePlayAll => togglePlayAll g
  | ev_togglePause => Some (togglePause g)
  | ev_reset => Some (set_manager (reset (manager g)) g)
  | ev_settles i resolved => settles i resolved g
  end.

(** The events of a list, in order; [None] if a handler did not return. *)
Fixpoint run (events : list Event) (g : Page) : option Page :=
  match events with
  | [] => Some g
  | e :: rest =>
      match step g e with
      | Some g' => run rest g'
      | None => None
      end
  end.

(** The cursor is -1 or an index of the queue; with no current element it
    is -1, otherwise it points at the current element; the elements of the
    queue carry distinct numbers, all below the next one to be given. *)
Definition consistent (p : t) : Prop :=
  (-1 <= currentAudioIndex p < queue_length p)%Z /\
  match currentAudio p with
  | None => currentAudioIndex p = (-1)%Z
  | Some audio => at_index (audioQueue p) (currentAudioIndex p) = Some audio
  end /\
  Forall (fun audio => audio_id audio < next_id p) (audioQueue p) /\
  NoDup (audio_id <$> audioQueue p).

(** The schedule of [AudioManager.playNext_loop]: a promise settles as soon
    as its call waits, with the next outcome of [play_script]. *)
Fixpoint settle_at_once (fuel : nat) (g : Page) : option Page :=
  match pending g with
  | [] => Some g
  | _ :: _ =>
      match fuel with
      | O => None
      | S fuel' =>
          let settled :=
            match play_script (manager g) with
            | true :: rest =>
                settles 0 false (set_manager (set_play_script rest (manager g)) g)
            | outcomes =>
                settles 0 true
                  (set_manager (set_play_script (tail outcomes) (manager g)) g)
            end in
          match settled with
          | Some g' => settle_at_once fuel' g'
          | None => None
          end
      end
  end.

End AudioEvents.

(* ===================================================================== *)
(** * The rest of the file-upload manager *)
(* ===================================================================== *)

Module FileUploadManagerRest.
Import FileUploadManager.

(** [this.maxFileSize] and [this.supportedTypes], set once by the
    constructor. *)
Definition maxFileSize : Z := 10 * 1024 * 1024.

Definition supportedTypes : list string :=
  [".txt"; ".csv"; ".json"; ".pdf"; ".docx"].

(** The full stop. *)
Definition dot : Ascii.ascii := Ascii.ascii_of_nat 46.

(** [name.split('.').pop()]: what follows the last dot, the whole name when
    it has none.  [seen] is the segment read so far. *)
Fixpoint last_segment_from (seen name : string) : string :=
  match name with
  | EmptyString => seen
  | String c rest =>
      if Ascii.eqb c dot then last_segment_from "" rest
      else last_segment_from (seen +:+ String c "") rest
  end.

Definition last_segment (name : string) : string := last_segment_from "" name.

(** The [File] a user picks. *)
Record Picked : Type := mkPicked {
  name : string;
  picked_size : Z
}.

(** How the POST to [/upload] ends. *)
Inductive UploadOutcome : Type :=
| uploaded (result : FileInfo)
| refused (statusText : string)      (* [!response.ok] *)
| failed (message : string).         (* [fetch] or [response.json()] throws *)

(** The manager with the handler it sends through and the [alert]s
    raised. *)
Record Page : Type := mkPage {
  manager : t;
  wsHandler : WebSocketHandler.t;
  alerts : list string
}.

Section Lowercase.

(** [String.prototype.toLowerCase] *)
Variable toLowerCase : string -> string.

(** [isFileSupported(file)], and the same test inside [processFile]. *)
Definition isFileSupported (file : Picked) : bool :=
  bool_decide (("." +:+ toLowerCase (last_segment (name file))) ∈ supportedTypes).

(** [processFile(file)], [outcome] saying how the upload ends if it is
    attempted. *)
Definition processFile (file : Picked) (outcome : UploadOutcome) (pg : Page) : Page :=
  let fail message :=
    mkPage (manager pg) (wsHandler pg)
      (alerts pg ++ ["處理文件失敗: " +:+ message]) in
  if (maxFileSize <? picked_size file)%Z then
    fail ("文件大小超過限制 (最大 "
          +:+ pretty (maxFileSize / 1024 / 1024)%Z +:+ "MB)")
  else if negb (isFileSupported file) then fail "不支持的文件類型"
  else
    match outcome with
    | uploaded result =>
        mkPage (addFileToList result (manager pg))
          (WebSocketHandler.sendMessage (file_process (info_path result))
             (wsHandler pg))
          (alerts pg)
    | refused statusText => fail ("上傳失敗: " +:+ statusText)
    | failed message => fail message
    end.

End Lowercase.

(** [handleFileProcessed(response)] of the earlier copy of the handler:
    the status update carries no context. *)
Definition handleFileProcessed (file_id : string) (m : t) : t :=
  updateFileStatus file_id "processed" JS.Null m.

(** A call that attaches no context. *)
Definition carries_no_context (c : Call) : bool :=
  match c with
  | call_updateFileStatus _ _ ctx => JS.falsy ctx
  | _ => true
  end.

End FileUploadManagerRest.

(* ===================================================================== *)
(** * The debug logger *)
(* ===================================================================== *)

Module DebugLogger.

Record Entry : Type := mkEntry {
  timestamp : string;
  message : string;
  type : string
}.

Record t : Type := mk {
  logs : list Entry;
  maxLogs : nat
}.

(** The constructor's field values. *)
Definition new : t := mk [] 1000.

Definition allowedTypes : list string := ["info"; "error"; "warning"; "success"].

Section Lowercase.

Variable toLowerCase : string -> string.

(** [formatType(type)] *)
Definition formatType (type : JS.Value) : string :=
  match type with
  | JS.Str s =>
      if String.eqb s "" then "info"
      else if bool_decide (toLowerCase s ∈ allowedTypes) then toLowerCase s
      else "info"
  | _ => "info"
  end.

(** The part of [log(message, type)] that keeps [this.logs]:
    [safeMessage] is what [formatMessage] returned, [now] the time stamp.
    The entry is pushed, and the oldest one shifted out when the list has
    grown past [maxLogs]. *)
Definition log (now safeMessage : string) (type : JS.Value) (d : t) : t :=
  let pushed := logs d ++ [mkEntry now safeMessage (formatType type)] in
  mk (if (maxLogs d <? length pushed)%nat then tail pushed else pushed)
     (maxLogs d).

(** [clear()] *)
Definition clear (now : string) (d : t) : t :=
  log now "日誌已清空" (JS.Str "info") (mk [] (maxLogs d)).

(** A call of [log]: time stamp, formatted message, type. *)
Definition LogCall : Type := string * string * JS.Value.

Definition entry_of (c : LogCall) : Entry :=
  mkEntry c.1.1 c.1.2 (formatType c.2).

Definition log_all (calls : list LogCall) (d : t) : t :=
  foldl (fun acc c => log c.1.1 c.1.2 c.2 acc) d calls.

End Lowercase.

End DebugLogger.

(* ===================================================================== *)
(** * Further scenarios *)
(* ===================================================================== *)

Module MoreScenarios.

(** The manager of [SurveyScenario.answering] with every question of
    [survey1] answered within its bounds. *)
Definition answered : SurveyManager.t :=
  SurveyManager.mk (Some SurveyScenario.survey1)
    (<["q1" := JS.Str "Ada"]>
       (<["q2" := JS.Number 4]> (<["q3" := JS.Arr ["a"]]> ∅)))
    (Some "s1") None None 1 "請完成問卷" [] [].


(** A required multiple-choice question without a [validation] block. *)
Definition q_required_choice : SurveyManager.Question :=
  SurveyManager.mkQuestion "q5" "Areas" true "multiple_choice" None
    (Some ["x"; "y"]).

(** Two segments queued whose [play()] will both reject. *)
Definition two_unplayable : AudioManager.t :=
  AudioManager.addAudio AudioScenario.url2
    (AudioManager.addAudio AudioScenario.url1 (AudioManager.new [true; true])).

(** Two segments queued, the second (and last) one current and paused. *)
Definition paused_on_last : AudioManager.t :=
  AudioManager.mk
    [AudioManager.mkAudio 0 AudioScenario.url1;
     AudioManager.mkAudio 1 AudioScenario.url2]
    1 false (Some (AudioManager.mkAudio 1 AudioScenario.url2)) 2 [] [].

(** Lower-casing of the letters A to Z, all a scenario file name needs. *)
Definition ascii_lower_char (c : Ascii.ascii) : Ascii.ascii :=
  let n := Ascii.nat_of_ascii c in
  if (65 <=? n)%nat && (n <=? 90)%nat then Ascii.ascii_of_nat (n + 32) else c.

Fixpoint ascii_lower (s : string) : string :=
  match s with
  | EmptyString => EmptyString
  | String c rest => String (ascii_lower_char c) (ascii_lower rest)
  end.

End MoreScenarios.

(* ===================================================================== *)
(** * Properties of the WebSocket handler *)
(* ===================================================================== *)

Module WebSocketHandlerFacts.
Import WebSocketHandler.

Lemma set_messageQueue_id h : set_messageQueue (messageQueue h) h = h.
Proof. by destruct h. Qed.

Lemma sendMessage_offline message h :
  connected h = false ->
  sendMessage message h = set_messageQueue (messageQueue h ++ [message]) h.
Proof.
  unfold connected, sendMessage.
  destruct (ws h) as [sock|]; [|done].
  by destruct (is_open (readyState sock)).
Qed.

Lemma sendMessages_offline messages : forall h,
  connected h = false ->
  sendMessages messages h = set_messageQueue (messageQueue h ++ messages) h.
Proof.
  induction messages as [|message messages IH]; intros h Hoff.
  - cbn. rewrite app_nil_r. symmetry. apply set_messageQueue_id.
  - change (sendMessages (message :: messages) h)
      with (sendMessages messages (sendMessage message h)).
    rewrite (sendMessage_offline _ _ Hoff), IH by done.
    cbn. by rewrite <- app_assoc.
Qed.

Lemma quiet_S n script :
  quiet (S n) script = true ->
  (script = [] \/ exists rest, script = false :: rest) /\
  quiet n (tail script) = true.
Proof.
  destruct script as [|[] rest]; cbn; intros H; try done.
  - split; [by left|]. by destruct n.
  - split; [right; by exists rest | done].
Qed.

Lemma sendMessage_online message h sock :
  ws h = Some sock -> is_open (readyState sock) = true ->
  quiet 1 (send_script h) = true ->
  sendMessage message h =
    set_ws (Some (mkWebSocket (readyState sock) (sent sock ++ [message])))
      (set_send_script (tail (send_script h)) h).
Proof.
  intros Hws Hopen Hq. unfold sendMessage. rewrite Hws, Hopen.
  apply quiet_S in Hq as [[->|[rest ->]] _]; done.
Qed.

(** With an open socket and no throw among the next [length queue]
    outcomes, the loop of [onopen] ends and has handed the queue to the
    socket front to back. *)
Lemma drain_quiet queue : forall fuel h sock,
  messageQueue h = queue ->
  ws h = Some sock -> is_open (readyState sock) = true ->
  quiet (length queue) (send_script h) = true ->
  length queue <= fuel ->
  drain fuel h =
    Some (set_messageQueue []
            (set_ws (Some (mkWebSocket (readyState sock) (sent sock ++ queue)))
               (set_send_script (drop (length queue) (send_script h)) h))).
Proof.
  induction queue as [|message queue IH]; intros fuel h sock Hq Hws Hopen Hquiet Hfuel.
  - assert (drain fuel h = Some h) as -> by (destruct fuel; cbn; by rewrite Hq).
    cbn. rewrite app_nil_r. destruct h, sock; cbn in *. by subst.
  - cbn [length] in Hfuel, Hquiet |- *.
    destruct fuel as [|fuel]; [lia|].
    cbn [drain]. rewrite Hq.
    apply quiet_S in Hquiet as [Hhead Htail].
    rewrite (sendMessage_online message _ sock); cbn; try done.
    2: { destruct Hhead as [->|[rest ->]]; done. }
    rewrite (IH fuel _ (mkWebSocket (readyState sock) (sent sock ++ [message])));
      cbn; try done; try lia.
    rewrite <- app_assoc. cbn.
    assert (drop (length queue) (tail (send_script h))
            = drop (S (length queue)) (send_script h)) as ->
      by (destruct (send_script h); [by destruct (length queue) | done]).
    by destruct h.
Qed.

Lemma sendMessage_reconnectAttempts message h :
  reconnectAttempts (sendMessage message h) = reconnectAttempts h.
Proof.
  unfold sendMessage. destruct (ws h) as [sock|]; [|done].
  destruct (is_open (readyState sock)); [|done].
  by destruct (send_script h) as [|[] rest].
Qed.

Lemma drain_reconnectAttempts fuel : forall h drained,
  drain fuel h = Some drained ->
  reconnectAttempts drained = reconnectAttempts h.
Proof.
  induction fuel as [|fuel IH]; intros h drained; cbn;
    destruct (messageQueue h) as [|message rest] eqn:Hq;
    intros Hrun; simplify_eq; try done.
  apply IH in Hrun. by rewrite Hrun, sendMessage_reconnectAttempts.
Qed.

End WebSocketHandlerFacts.

Module TransportClaims.
Import WebSocketHandler WebSocketHandlerFacts.

Lemma connected_inv h :
  connected h = true ->
  exists sock, ws h = Some sock /\ is_open (readyState sock) = true.
Proof.
  unfold connected. destruct (ws h) as [sock|]; [|done]. by exists sock.
Qed.

(** C1, as the code has it.  Messages sent while the socket is not open
    are appended to the pending queue in call order and nothing is
    transmitted; when the socket opens and no send of the drain throws,
    [onopen] ends with the queue empty and the socket has received the
    earlier queue followed by those messages, each once and in the order
    issued; a send made afterwards is transmitted behind them. *)
Theorem queued_messages_drain_in_call_order
    (h : t) (messages : list Message) (fuel : nat) :
  is_Some (ws h) ->
  connected h = false ->
  quiet (length (messageQueue h ++ messages)) (send_script h) = true ->
  length (messageQueue h ++ messages) <= fuel ->
  let offline := sendMessages messages h in
  messageQueue offline = messageQueue h ++ messages /\
  transmitted offline = transmitted h /\
  exists online,
    socket_opens fuel offline = Some online /\
    connected online = true /\
    messageQueue online = [] /\
    transmitted online = transmitted h ++ messageQueue h ++ messages /\
    forall later,
      quiet 1 (send_script online) = true ->
      transmitted (sendMessage later online)
      = transmitted h ++ messageQueue h ++ messages ++ [later].
Proof.
  intros [sock Hws] Hoff Hquiet Hfuel offline.
  subst offline. rewrite (sendMessages_offline _ _ Hoff).
  split; [done|]. split; [done|].
  unfold socket_opens, onopen, set_readyState. cbn. rewrite Hws. cbn.
  erewrite (drain_quiet (messageQueue h ++ messages)); cbn; try done.
  eexists. split; [done|]. cbn.
  unfold transmitted. rewrite Hws. cbn.
  repeat split; try done.
  intros later Hq. unfold sendMessage. cbn.
  apply quiet_S in Hq as [[->|[rest ->]] _]; cbn; by rewrite <- !app_assoc.
Qed.

Lemma queued_messages_drain_in_call_order_witness :
  let h := TransportScenario.fresh [] in
  let messages := [text "a"; survey_generate "rivers"; text "c"] in
  exists online,
    socket_opens 3 (sendMessages messages h) = Some online /\
    transmitted online = messages /\ messageQueue online = [].
Proof.
  intros h messages.
  destruct (queued_messages_drain_in_call_order h messages 3)
    as (_ & _ & online & Hopen & _ & Hqueue & Hsent & _).
  - by eexists.
  - reflexivity.
  - reflexivity.
  - cbn. lia.
  - exists online. by repeat split.
Defined.

(** C1 as stated fails: two messages are sent while the socket is not
    open and are queued in call order; the socket opens and the first send
    of the drain throws.  That message goes to the back of the queue (see
    C5) and is transmitted after the one that was behind it. *)
Lemma drain_after_a_throw :
  let h := TransportScenario.fresh [true] in
  let offline := sendMessages [text "a"; text "b"] h in
  connected h = false /\
  messageQueue offline = [text "a"; text "b"] /\
  transmitted offline = [] /\
  (transmitted <$> socket_opens 3 offline) = Some [text "b"; text "a"] /\
  (messageQueue <$> socket_opens 3 offline) = Some [].
Proof. repeat split; reflexivity. Qed.

(** C4.  A reconnection attempt below the cap counts itself and arms one
    timer whose delay is [reconnectDelay * 1.5 ^ (n - 1)], [n] being the
    new value of the counter; at the cap [handleReconnect] changes nothing,
    so no timer is armed; [onopen] leaves the counter at zero, and it
    completes whenever the drain does not throw.  A new handler has
    [reconnectDelay = 3000] and [maxReconnectAttempts = 5]: when its socket
    closes six times in a row, each armed timer firing before the next
    close, the delays armed are 3000, 4500, 6750, 10125 and 15187.5 ms and
    the sixth close arms none.  (Delays are exact rationals; these five are
    exact in binary floating point too.) *)
Theorem reconnect_backoff_schedule (h : t) :
  (reconnectAttempts h < maxReconnectAttempts h ->
     let n := S (reconnectAttempts h) in
     reconnectAttempts (handleReconnect h) = n /\
     timers (handleReconnect h)
     = timers h ++ [(reconnectDelay h * (3 # 2) ^ (Z.of_nat n - 1))%Q]) /\
  (maxReconnectAttempts h <= reconnectAttempts h ->
     handleReconnect h = h) /\
  (forall fuel opened,
     socket_opens fuel h = Some opened -> reconnectAttempts opened = 0) /\
  (is_Some (ws h) ->
   quiet (length (messageQueue h)) (send_script h) = true ->
   is_Some (socket_opens (length (messageQueue h)) h)) /\
  (forall send_outcomes ctor_outcomes,
     let fresh := new send_outcomes ctor_outcomes in
     Qeq (reconnectDelay fresh) 3000 /\ maxReconnectAttempts fresh = 5) /\
  (let retried :=
     Nat.iter 5 (fun h' => ontimer (socket_closes h')) (new [] []) in
   reconnectAttempts retried = 5 /\
   Forall2 Qeq (timers (socket_closes retried))
     [3000; 4500; 6750; 10125; 30375 # 2]%Q).
Proof.
  split; [|split; [|split; [|split; [|split]]]].
  - intros Hlt n. unfold handleReconnect.
    destruct (Nat.leb_spec (maxReconnectAttempts h) (reconnectAttempts h));
      [lia|done].
  - intros Hcap. unfold handleReconnect.
    by destruct (Nat.leb_spec (maxReconnectAttempts h) (reconnectAttempts h));
      [|lia].
  - intros fuel opened Hopen. unfold socket_opens, onopen in Hopen.
    by apply drain_reconnectAttempts in Hopen.
  - intros [sock Hws] Hquiet. unfold socket_opens, onopen, set_readyState.
    rewrite Hws.
    erewrite (drain_quiet (messageQueue h)); cbn; done.
  - intros send_outcomes ctor_outcomes fresh. subst fresh.
    by destruct ctor_outcomes as [|[] rest].
  - split; [reflexivity|]. vm_compute. repeat constructor.
Qed.

Lemma reconnect_backoff_schedule_witness :
  let h := socket_closes (socket_closes (TransportScenario.fresh [])) in
  reconnectAttempts (handleReconnect h) = 3 /\
  timers (handleReconnect h) = timers h ++ [(3000 * (3 # 2) ^ (3 - 1))%Q].
Proof.
  intros h.
  destruct (reconnect_backoff_schedule h) as (Hbelow & _).
  apply Hbelow. vm_compute. lia.
Defined.

(** C5, as the code has it.  When the socket is open and the send throws,
    [sendMessage] pushes the message onto the back of the pending queue;
    nothing is transmitted and nothing is dropped. *)
Theorem failed_send_requeued_at_back (h : t) (message : Message) :
  connected h = true ->
  head (send_script h) = Some true ->
  messageQueue (sendMessage message h) = messageQueue h ++ [message] /\
  transmitted (sendMessage message h) = transmitted h.
Proof.
  intros (sock & Hws & Hopen)%connected_inv Hthrow.
  unfold sendMessage, transmitted. rewrite Hws, Hopen.
  destruct (send_script h) as [|[] rest]; try done.
  cbn. by rewrite Hws.
Qed.

Lemma failed_send_requeued_at_back_witness :
  messageQueue (sendMessage (text "b") TransportScenario.after_failed_send)
  = [text "a"; text "b"] /\
  transmitted (sendMessage (text "b") TransportScenario.after_failed_send) = [].
Proof.
  apply (failed_send_requeued_at_back TransportScenario.after_failed_send (text "b"));
    reflexivity.
Defined.

(** C5 as stated fails: with ["a"] already waiting on an open socket, a
    throwing send of ["b"] leaves ["b"] behind ["a"], not in front. *)
Lemma failed_send_not_requeued_at_front :
  connected TransportScenario.after_failed_send = true /\
  head (send_script TransportScenario.after_failed_send) = Some true /\
  messageQueue (sendMessage (text "b") TransportScenario.after_failed_send)
  <> text "b" :: messageQueue TransportScenario.after_failed_send.
Proof. repeat split. vm_compute. discriminate. Qed.

(** C8, as the code has it.  [connect()] does nothing while
    [isConnecting] is set.  Otherwise, and so also when the socket is
    already open, it sets the flag and, unless the constructor throws,
    makes a fresh connecting socket the handler's socket, the previous one
    being left as it was. *)
Theorem connect_guarded_by_isConnecting (h : t) :
  (isConnecting h = true -> connect h = h) /\
  (isConnecting h = false ->
   head (ctor_script h) <> Some true ->
   ws (connect h) = Some (mkWebSocket CONNECTING []) /\
   detached (connect h) = option_list (ws h) ++ detached h /\
   isConnecting (connect h) = true /\
   messageQueue (connect h) = messageQueue h /\
   reconnectAttempts (connect h) = reconnectAttempts h).
Proof.
  split; intros Hflag; unfold connect; rewrite Hflag; [done|].
  intros Hctor. cbn.
  destruct (ctor_script h) as [|[] rest]; done.
Qed.

Lemma connect_guarded_by_isConnecting_witness :
  connect (TransportScenario.fresh []) = TransportScenario.fresh [] /\
  ws (connect (TransportScenario.opened [])) = Some (mkWebSocket CONNECTING []) /\
  detached (connect (TransportScenario.opened [])) = [mkWebSocket OPEN []].
Proof.
  split.
  - by apply (connect_guarded_by_isConnecting (TransportScenario.fresh [])).
  - destruct (connect_guarded_by_isConnecting (TransportScenario.opened []))
      as [_ Hnew].
    destruct Hnew as (Hws & Hdetached & _); [reflexivity|discriminate|].
    by split.
Defined.

(** C8 as stated fails: on a handler whose socket is open, [connect()]
    is not a no-op; it replaces the open socket by a new one. *)
Lemma connect_while_connected_not_noop :
  socket_opens 0 (TransportScenario.fresh []) = Some (TransportScenario.opened []) /\
  connected (TransportScenario.opened []) = true /\
  connect (TransportScenario.opened []) <> TransportScenario.opened [] /\
  detached (connect (TransportScenario.opened [])) = [mkWebSocket OPEN []].
Proof. repeat split. vm_compute. discriminate. Qed.

End TransportClaims.

(* ===================================================================== *)
(** * Properties of the survey manager *)
(* ===================================================================== *)

Module SurveyManagerFacts.
Import SurveyManager.

Lemma append_inv_head (s a b : string) : s +:+ a = s +:+ b -> a = b.
Proof. induction s as [|c s IH]; cbn; [done|]. intros [= H]. auto. Qed.

Lemma append_nonempty (s a : string) : a <> "" -> s +:+ a <> "".
Proof. destruct s; cbn; [done|discriminate]. Qed.

Lemma prefix_append (s a : string) : String.prefix s (s +:+ a) = true.
Proof.
  induction s as [|c s IH]; [by destruct a|].
  change (String c s +:+ a) with (String c (s +:+ a)).
  cbn [String.prefix]. by destruct (Ascii.ascii_dec c c).
Qed.

(** The set of messages built by repeated [errors.add]. *)
Lemma set_add_fold (messages : list string) : forall acc,
  NoDup acc ->
  let result := foldl (fun errors error => set_add error errors) acc messages in
  NoDup result /\ forall e, e ∈ result <-> e ∈ acc \/ e ∈ messages.
Proof.
  induction messages as [|m messages IH]; intros acc Hnodup; cbn.
  - split; [done|]. intros e. rewrite elem_of_nil. tauto.
  - destruct (IH (set_add m acc)) as [Hnd Hel].
    + unfold set_add. case_bool_decide; [done|].
      apply NoDup_app. repeat split; [done| |apply NoDup_singleton].
      intros x Hx ->%list_elem_of_singleton. done.
    + split; [done|]. intros e. rewrite Hel, elem_of_cons.
      unfold set_add. case_bool_decide as Hm.
      * split; [tauto|]. intros [?|[->|?]]; tauto.
      * rewrite elem_of_app, list_elem_of_singleton. tauto.
Qed.

Section WithConversion.
Variable StringToNumber : string -> option Z.

(** Every message starts with the title of its question. *)
Lemma validateQuestion_names_question s question error :
  validateQuestion StringToNumber s question = Some error ->
  String.prefix (title question) error = true.
Proof.
  unfold validateQuestion.
  repeat match goal with
         | |- context [if ?b then _ else _] => destruct b
         end; intros [= <-]; apply prefix_append.
Qed.

Lemma validateQuestion_nonempty s question error :
  validateQuestion StringToNumber s question = Some error -> String.eqb error "" = false.
Proof.
  unfold validateQuestion.
  repeat match goal with
         | |- context [if ?b then _ else _] => destruct b
         end; intros [= <-]; apply String.eqb_neq, append_nonempty; discriminate.
Qed.

(** A truthy response never yields the required-field message. *)
Lemma truthy_not_required_message s question :
  JS.falsy (response_of s question) = false ->
  validateQuestion StringToNumber s question <> Some (required_message question).
Proof.
  unfold validateQuestion, required_message. intros ->.
  rewrite andb_false_r.
  repeat match goal with
         | |- context [if ?b then _ else _] => destruct b
         end; try discriminate;
    intros [= H%append_inv_head]; cbn in H; discriminate.
Qed.

Lemma validateQuestion_ext s1 s2 question :
  surveyResponses s1 = surveyResponses s2 ->
  validateQuestion StringToNumber s1 question
  = validateQuestion StringToNumber s2 question.
Proof. unfold validateQuestion, response_of. by intros ->. Qed.

Lemma violations_ext s1 s2 qs :
  surveyResponses s1 = surveyResponses s2 ->
  violations StringToNumber s1 qs = violations StringToNumber s2 qs.
Proof.
  intros Heq. unfold violations.
  induction qs as [|question qs IH]; [done|]. cbn.
  by rewrite (validateQuestion_ext s1 s2), IH.
Qed.

Lemma elem_of_violations s qs id error :
  (id, error) ∈ violations StringToNumber s qs <->
  exists question,
    question ∈ qs /\ id = question_id question /\
    validateQuestion StringToNumber s question = Some error.
Proof.
  unfold violations. rewrite list_elem_of_omap. split.
  - intros (question & Hin & Hsome). exists question.
    destruct (validateQuestion StringToNumber s question) as [e|];
      cbn in Hsome; simplify_eq. done.
  - intros (question & Hin & -> & Hsome). exists question.
    by rewrite Hsome.
Qed.

(** What the inner loop of [validateResponses] leaves behind. *)
Lemma check_fold (qs : list Question) : forall c,
  let c' := foldl (check StringToNumber) c qs in
  let found := violations StringToNumber (manager c) qs in
  session (manager c') = session (manager c) /\
  statusText (manager c') = statusText (manager c) /\
  alerts (manager c') = alerts (manager c) /\
  fieldErrors (manager c') = fieldErrors (manager c) ++ found /\
  errors c' = foldl (fun errors error => set_add error errors) (errors c) found.*2 /\
  isValid c' = isValid c && bool_decide (found = []).
Proof.
  induction qs as [|question qs IH]; intros c.
  - cbn. rewrite app_nil_r, andb_true_r. done.
  - change (foldl (check StringToNumber) c (question :: qs))
      with (foldl (check StringToNumber) (check StringToNumber c question) qs).
    specialize (IH (check StringToNumber c question)). cbn zeta in IH |- *.
    unfold violations in *. cbn [omap list_omap].
    unfold check in *.
    destruct (validateQuestion StringToNumber (manager c) question)
      as [error|] eqn:Hv; [|done].
    rewrite (validateQuestion_nonempty _ _ _ Hv) in *. cbn in IH |- *.
    fold (violations StringToNumber
            (showError (question_id question) error (manager c)) qs) in IH.
    rewrite (violations_ext (showError (question_id question) error (manager c))
               (manager c)) in IH by done.
    unfold violations in IH.
    destruct IH as (Hs & Hst & Ha & Hf & He & Hi).
    rewrite Hs, Hst, Ha, Hf, He, Hi, <- app_assoc, andb_false_r. done.
Qed.

Lemma check_section_fold (secs : list SurveySection) : forall c,
  foldl (check_section StringToNumber) c secs
  = foldl (check StringToNumber) c (concat (questions <$> secs)).
Proof.
  induction secs as [|sec secs IH]; intros c; cbn; [done|].
  by rewrite foldl_app, IH.
Qed.

End WithConversion.

End SurveyManagerFacts.

Module SurveyClaims.
Import SurveyManager SurveyManagerFacts.

(** C10.  For a required question [validateQuestion] returns the
    required-field message exactly when the stored response is falsy; so
    the answers [0] and [""] to a required question are rejected as
    missing; and a non-required question whose response is falsy is
    valid, none of the per-type checks being made. *)
Theorem required_check_is_falsiness
    (StringToNumber : string -> option Z) (s : t) (question : Question) :
  (required question = true ->
     (validateQuestion StringToNumber s question
      = Some (required_message question)
      <-> JS.falsy (response_of s question) = true)) /\
  (required question = true ->
     surveyResponses s !! question_id question = Some (JS.Number 0)
     \/ surveyResponses s !! question_id question = Some (JS.Str "") ->
     validateQuestion StringToNumber s question
     = Some (required_message question)) /\
  (required question = false ->
     JS.falsy (response_of s question) = true ->
     validateQuestion StringToNumber s question = None).
Proof.
  split; [|split].
  - intros Hreq. split.
    + intros Hmsg. destruct (JS.falsy (response_of s question)) eqn:Hf; [done|].
      by apply truthy_not_required_message in Hmsg.
    + intros Hf. unfold validateQuestion. by rewrite Hreq, Hf.
  - intros Hreq Hzero. unfold validateQuestion, response_of.
    rewrite Hreq. by destruct Hzero as [-> | ->].
  - intros Hreq Hf. unfold validateQuestion. by rewrite Hreq, Hf.
Qed.

Lemma required_check_is_falsiness_witness :
  validateQuestion SurveyScenario.no_number SurveyScenario.answering
    SurveyScenario.q_score
  = Some "Score 為必填項目" /\
  validateQuestion SurveyScenario.no_number
    (handleRatingClick "q4" 0 SurveyScenario.answering) SurveyScenario.q_notes
  = None.
Proof.
  split.
  - destruct (required_check_is_falsiness SurveyScenario.no_number
                SurveyScenario.answering SurveyScenario.q_score)
      as (_ & Hzero & _).
    apply Hzero; [reflexivity|]. left. reflexivity.
  - destruct (required_check_is_falsiness SurveyScenario.no_number
                (handleRatingClick "q4" 0 SurveyScenario.answering)
                SurveyScenario.q_notes)
      as (_ & _ & Hskip).
    apply Hskip; reflexivity.
Defined.

(** C6.  When some question of the current survey fails
    [validateQuestion], [submitSurvey] sends nothing (the handler, its
    queue and its socket are as before), leaves the six session fields as
    they were, raises one [alert] listing the distinct messages of the
    offending questions, and fills the error field of each offending
    question with its message; every message starts with the title of its
    question. *)
Theorem failed_validation_sends_nothing
    (StringToNumber : string -> option Z)
    (s : t) (h : WebSocketHandler.t) (survey : Survey) :
  currentSurvey s = Some survey ->
  (exists question,
      question ∈ all_questions survey /\
      is_Some (validateQuestion StringToNumber s question)) ->
  let after := submitSurvey StringToNumber (s, h) in
  after.2 = h /\
  session after.1 = session s /\
  statusText after.1 = statusText s /\
  (exists messages,
      alerts after.1
      = alerts s ++ ["請檢查以下問題:" +:+ nl +:+ String.concat nl messages] /\
      NoDup messages /\
      forall error,
        error ∈ messages <->
        exists question,
          question ∈ all_questions survey /\
          validateQuestion StringToNumber s question = Some error) /\
  fieldErrors after.1
  = fieldErrors s ++ violations StringToNumber s (all_questions survey) /\
  (forall question error,
      validateQuestion StringToNumber s question = Some error ->
      String.prefix (title question) error = true).
Proof.
  intros Hsurvey (bad & Hin & [msg Hbad]) after. subst after.
  unfold submitSurvey, validateResponses. rewrite Hsurvey.
  rewrite check_section_fold.
  pose proof (check_fold StringToNumber (all_questions survey)
                (mkChecking true [] s)) as Hfold.
  cbn zeta in Hfold. cbn [manager errors isValid] in Hfold.
  unfold all_questions in *.
  set (c := foldl (check StringToNumber) (mkChecking true [] s)
              (concat (questions <$> sections survey))) in *.
  set (found := violations StringToNumber s
                  (concat (questions <$> sections survey))) in *.
  destruct Hfold as (Hs & Hst & Ha & Hf & He & Hi).
  assert (Hfound : (question_id bad, msg) ∈ found)
    by (apply elem_of_violations; by exists bad).
  assert (isValid c = false) as Hinvalid.
  { rewrite Hi. cbn. apply bool_decide_eq_false. intros Hnil.
    rewrite Hnil in Hfound. by apply not_elem_of_nil in Hfound. }
  rewrite Hinvalid. cbn.
  pose proof (set_add_fold found.*2 [] (NoDup_nil_2)) as [Hnd Hel].
  cbn zeta in Hnd, Hel. rewrite <- He in Hnd, Hel.
  split; [done|]. split; [done|]. split; [done|].
  split; [|split; [done|]].
  - exists (errors c). rewrite Ha. split; [done|]. split; [done|].
    intros error. split.
    + intros [Hx|Hx]%Hel; [by apply elem_of_nil in Hx|].
      apply list_elem_of_fmap in Hx as ([id e] & -> & Hx).
      apply elem_of_violations in Hx as (question & ? & _ & ?).
      by exists question.
    + intros (question & Hq & Hv). apply Hel. right.
      apply list_elem_of_fmap. exists (question_id question, error).
      split; [done|]. apply elem_of_violations. by exists question.
  - apply validateQuestion_names_question.
Qed.

Lemma failed_validation_sends_nothing_witness :
  let after :=
    submitSurvey SurveyScenario.no_number
      (SurveyScenario.answering, TransportScenario.opened []) in
  after.2 = TransportScenario.opened [] /\
  session after.1 = session SurveyScenario.answering /\
  fieldErrors after.1
  = [("q1", "Name 為必填項目"); ("q2", "Score 為必填項目");
     ("q3", "Topics 最多選擇 2 項")].
Proof.
  intros after.
  destruct (failed_validation_sends_nothing SurveyScenario.no_number
              SurveyScenario.answering (TransportScenario.opened [])
              SurveyScenario.survey1)
    as (Hsame & Hsession & _ & _ & Hfields & _).
  - reflexivity.
  - exists SurveyScenario.q_name. split.
    + vm_compute. left.
    + by eexists.
  - by repeat split.
Defined.

End SurveyClaims.

(* ===================================================================== *)
(** * Properties of the inbound dispatch *)
(* ===================================================================== *)

Module ClientClaims.
Import SurveyManager.

(** C2, as the code has it.  A frame that does not parse, that carries a
    truthy [error] field, or whose [type] is none of the five handled ones
    leaves the client as it was.  A [survey_generated] frame is applied in
    whatever step it arrives: [currentSurvey] and [surveyId] take the
    frame's values, while the responses, the analysis, the plan, the
    handler and the audio manager stay as they were. *)
Theorem dispatch_has_no_stage_guard
    (c : Client.t) (s : SurveyManager.t) (response : Response) :
  Client.surveyManager c = Some s ->
  Client.onmessage None c = c /\
  (Client.present (error response) = true ->
     Client.onmessage (Some response) c = c) /\
  ((forall type, kind response = Some type ->
      type ∉ ["survey_generated"; "survey_analysis"; "program_plan";
              "section_ready"; "complete"]) ->
     Client.onmessage (Some response) c = c) /\
  (Client.present (error response) = false ->
   kind response = Some "survey_generated" ->
   exists s',
     Client.surveyManager (Client.onmessage (Some response) c) = Some s' /\
     currentSurvey s' = survey response /\
     surveyId s' = survey_id response /\
     surveyResponses s' = surveyResponses s /\
     analysis s' = analysis s /\
     plan s' = plan s /\
     Client.wsHandler (Client.onmessage (Some response) c) = Client.wsHandler c /\
     Client.audioManager (Client.onmessage (Some response) c)
     = Client.audioManager c).
Proof.
  intros Hs. split; [done|]. split; [|split].
  - intros Herr. unfold Client.onmessage. by rewrite Herr.
  - intros Hkind. unfold Client.onmessage.
    destruct (Client.present (error response)); [done|].
    destruct (kind response) as [type|]; [|done].
    specialize (Hkind type eq_refl).
    repeat match goal with
           | |- context [String.eqb type ?lit] =>
               destruct (String.eqb_spec type lit) as [->|_];
               [exfalso; apply Hkind; set_solver|]
           end.
    done.
  - intros Herr Hkind. unfold Client.onmessage. rewrite Herr, Hkind, Hs. cbn.
    eexists. split; [done|].
    unfold handleSurveyGenerated.
    by destruct (snd (renderSurvey _)).
Qed.

Lemma dispatch_has_no_stage_guard_witness :
  exists s',
    Client.surveyManager
      (Client.onmessage (Some ClientScenario.generated2) ClientScenario.planned)
    = Some s' /\
    currentSurvey s' = Some SurveyScenario.survey2 /\
    surveyId s' = Some "s2" /\
    analysis s' = Some "beginner" /\
    plan s' = Some "three parts".
Proof.
  destruct (dispatch_has_no_stage_guard ClientScenario.planned
              (mk (Some SurveyScenario.survey1) ∅ (Some "s1")
                  (Some "beginner") (Some "three parts") 3 "規劃完成" [] [])
              ClientScenario.generated2)
    as (_ & _ & _ & Happlied).
  - reflexivity.
  - destruct Happlied as (s' & Hs' & Hsurvey & Hid & _ & Han & Hplan & _);
      [reflexivity|reflexivity|].
    exists s'. by rewrite Hs', Hsurvey, Hid, Han, Hplan.
Defined.

(** C2 as stated fails: after the plan has arrived (step 3), a further
    [survey_generated] frame is not discarded; it replaces the stored
    survey and its id. *)
Lemma late_survey_generated_not_discarded :
  (currentStep <$> Client.surveyManager ClientScenario.planned) = Some 3 /\
  (currentSurvey <$> Client.surveyManager ClientScenario.planned)
  = Some (Some SurveyScenario.survey1) /\
  kind ClientScenario.generated2 = Some "survey_generated" /\
  (currentSurvey <$>
     Client.surveyManager
       (Client.onmessage (Some ClientScenario.generated2) ClientScenario.planned))
  = Some (Some SurveyScenario.survey2) /\
  Client.onmessage (Some ClientScenario.generated2) ClientScenario.planned
  <> ClientScenario.planned.
Proof.
  split; [reflexivity|]. split; [reflexivity|]. split; [reflexivity|].
  split; [reflexivity|].
  intros Hsame.
  apply (f_equal (fun c => surveyId <$> Client.surveyManager c)) in Hsame.
  vm_compute in Hsame. discriminate.
Qed.

End ClientClaims.

(* ===================================================================== *)
(** * Properties of the audio manager *)
(* ===================================================================== *)

Module AudioManagerFacts.
Import AudioManager.

Lemma at_index_Some queue i audio :
  at_index queue i = Some audio ->
  (0 <= i < Z.of_nat (length queue))%Z.
Proof.
  unfold at_index. destruct (Z.ltb_spec i 0); [done|].
  intros Hlook%lookup_lt_Some. lia.
Qed.

Lemma at_index_is_Some queue i :
  (0 <= i < Z.of_nat (length queue))%Z -> is_Some (at_index queue i).
Proof.
  intros Hi. unfold at_index. destruct (Z.ltb_spec i 0); [lia|].
  apply lookup_lt_is_Some. lia.
Qed.

(** [playNext] always returns: the [catch] re-enters it at most once per
    element after the cursor. *)
Lemma playNext_loop_total fuel : forall p,
  Z.to_nat (queue_length p - 1 - currentAudioIndex p) <= fuel ->
  is_Some (playNext_loop fuel p).
Proof.
  induction fuel as [|fuel IH]; intros p Hfuel.
  - cbn [playNext_loop]. cbn zeta.
    replace (currentAudioIndex (set_currentAudioIndex (currentAudioIndex p + 1) p)
             <? queue_length (set_currentAudioIndex (currentAudioIndex p + 1) p))%Z
      with false; [done|].
    symmetry. apply Z.ltb_ge. unfold queue_length in *. cbn. lia.
  - cbn [playNext_loop]. cbn zeta.
    destruct (Z.ltb_spec
                (currentAudioIndex (set_currentAudioIndex (currentAudioIndex p + 1) p))
                (queue_length (set_currentAudioIndex (currentAudioIndex p + 1) p)))
      as [Hlt|Hge]; [|done].
    unfold queue_length in *. cbn in Hlt.
    destruct (at_index _ _) as [audio|].
    + destruct (play_script _) as [|[] rest]; try done.
      apply IH. unfold queue_length. cbn. lia.
    + apply IH. unfold queue_length. cbn. lia.
Qed.

Lemma playNext_total p : is_Some (playNext p).
Proof. by apply playNext_loop_total. Qed.

(** [k] rejected [play()] calls followed by one that resolves: the loop
    steps over the [k] elements and starts the next one. *)
Lemma playNext_loop_skips (k : nat) : forall fuel p audio,
  k <= fuel ->
  (-1 <= currentAudioIndex p)%Z ->
  take k (play_script p) = replicate k true ->
  play_script p !! k <> Some true ->
  at_index (audioQueue p) (currentAudioIndex p + 1 + Z.of_nat k) = Some audio ->
  playNext_loop fuel p
  = Some (mk (audioQueue p) (currentAudioIndex p + 1 + Z.of_nat k) true
            (Some audio) (next_id p) (drop (S k) (play_script p))
            (log p ++ replicate k PlayFailed ++
               [PlayStarted (currentAudioIndex p + 1 + Z.of_nat k + 1)
                  (queue_length p)])).
Proof.
  induction k as [|k IH]; intros fuel p audio Hfuel Hidx Htake Hnext Hat.
  - replace (currentAudioIndex p + 1 + Z.of_nat 0)%Z
      with (currentAudioIndex p + 1)%Z in * by lia.
    pose proof (at_index_Some _ _ _ Hat) as Hrange.
    destruct fuel; cbn [playNext_loop]; cbn zeta;
      (destruct (Z.ltb_spec
                  (currentAudioIndex (set_currentAudioIndex (currentAudioIndex p + 1) p))
                  (queue_length (set_currentAudioIndex (currentAudioIndex p + 1) p)))
        as [_|Hge]; [|unfold queue_length in Hge; cbn in Hge; lia]);
      cbn; rewrite Hat; cbn;
      destruct (play_script p) as [|[] rest]; cbn in *; try done.
  - pose proof (at_index_Some _ _ _ Hat) as Hrange.
    destruct fuel as [|fuel]; [lia|].
    destruct (at_index_is_Some (audioQueue p) (currentAudioIndex p + 1))
      as [skipped Hskipped]; [lia|].
    destruct (play_script p) as [|[] rest] eqn:Hscript; cbn in Htake;
      try done.
    cbn [playNext_loop]. cbn zeta.
    destruct (Z.ltb_spec
                (currentAudioIndex (set_currentAudioIndex (currentAudioIndex p + 1) p))
                (queue_length (set_currentAudioIndex (currentAudioIndex p + 1) p)))
      as [_|Hge]; [|unfold queue_length in Hge; cbn in Hge; lia].
    cbn. rewrite Hskipped. cbn. rewrite Hscript.
    rewrite (IH fuel _ audio); cbn; try lia.
    + replace (currentAudioIndex p + 1 + 1 + Z.of_nat k)%Z
        with (currentAudioIndex p + 1 + Z.of_nat (S k))%Z by lia.
      by rewrite <- app_assoc.
    + by injection Htake.
    + done.
    + rewrite <- Hat. f_equal. lia.
Qed.

End AudioManagerFacts.

Module AudioClaims.
Import AudioManager AudioManagerFacts.

(** C7, at the failing input.  The [error] event of an element, which
    reports a failure to fetch or decode it, changes nothing but the log,
    whatever the state.  So when two segments are queued, play-all is
    pressed, the first segment starts and its element then reports an
    error, the failure is logged and that is all: the cursor stays on the
    failed segment, which stays the current one, the flag stays up, no
    call waits for a promise, and the second segment is not started.  The
    [catch] of [playNext], reached when [play()] rejects, does go on to
    the next segment (X26). *)
Theorem error_event_stalls_the_queue :
  (forall g audio,
     AudioEvents.step g (AudioEvents.ev_error audio)
     = Some (AudioEvents.mkPage
               (debug (LoadFailed (src audio)) (AudioEvents.manager g))
               (AudioEvents.pending g))) /\
  AudioEvents.run
    [AudioEvents.ev_addAudio AudioScenario.url1;
     AudioEvents.ev_addAudio AudioScenario.url2;
     AudioEvents.ev_togglePlayAll;
     AudioEvents.ev_settles 0 true;
     AudioEvents.ev_error (mkAudio 0 AudioScenario.url1)]
    (AudioEvents.mkPage (new []) [])
  = Some (AudioEvents.mkPage
            (mk [mkAudio 0 AudioScenario.url1; mkAudio 1 AudioScenario.url2]
                0 true (Some (mkAudio 0 AudioScenario.url1)) 2 []
                [AudioAdded AudioScenario.url1; AudioAdded AudioScenario.url2;
                 PlayStarted 1 2; LoadFailed AudioScenario.url1])
            []).
Proof. split; reflexivity. Qed.

(** C3, as the code has it.  When the segment that ends is the last one
    enqueued, [playNext] stops the player: the cursor goes back to -1,
    [isPlaying] is false and there is no current element.  [addAudio]
    afterwards appends the new segment and starts nothing. *)
Theorem queue_end_stops_playback (p : t) (last : Audio) (audioUrl : string) :
  currentAudio p = Some last ->
  currentAudioIndex p = (queue_length p - 1)%Z ->
  let stopped :=
    debug QueueEnded
      (set_currentAudio None
         (set_isPlaying false (set_currentAudioIndex (-1) p))) in
  onended last p = Some stopped /\
  let appended := addAudio audioUrl stopped in
  audioQueue appended = audioQueue p ++ [mkAudio (next_id p) audioUrl] /\
  isPlaying appended = false /\
  currentAudio appended = None /\
  currentAudioIndex appended = (-1)%Z.
Proof.
  intros Hcur Hidx stopped. split; [|done].
  unfold onended, same_audio. rewrite Hcur, Nat.eqb_refl.
  unfold playNext, playNext_fuel. rewrite Hidx.
  replace (Z.to_nat (queue_length p - 1 - (queue_length p - 1))) with 0 by lia.
  cbn [playNext_loop]. cbn zeta.
  replace (currentAudioIndex (set_currentAudioIndex (currentAudioIndex p + 1) p)
           <? queue_length (set_currentAudioIndex (currentAudioIndex p + 1) p))%Z
    with false; [done|].
  symmetry. apply Z.ltb_ge. unfold queue_length in *. cbn. lia.
Qed.

Lemma queue_end_stops_playback_witness :
  onended (mkAudio 0 AudioScenario.url1) AudioScenario.playing_last
  = Some (mk [mkAudio 0 AudioScenario.url1] (-1) false None 1 []
            [AudioAdded AudioScenario.url1; PlayStarted 1 1; QueueEnded]).
Proof.
  destruct (queue_end_stops_playback AudioScenario.playing_last
              (mkAudio 0 AudioScenario.url1) AudioScenario.url2)
    as [Hended _]; [reflexivity|reflexivity|].
  exact Hended.
Defined.

(** C3 as stated fails: the only segment is playing and ends; the segment
    enqueued next is not started, the player stays stopped with the cursor
    at -1. *)
Lemma enqueue_after_queue_end_does_not_resume :
  togglePlayAll (addAudio AudioScenario.url1 (new []))
  = Some AudioScenario.playing_last /\
  (addAudio AudioScenario.url2
     <$> onended (mkAudio 0 AudioScenario.url1) AudioScenario.playing_last)
  = Some (mk [mkAudio 0 AudioScenario.url1; mkAudio 1 AudioScenario.url2]
            (-1) false None 2 []
            [AudioAdded AudioScenario.url1; PlayStarted 1 1; QueueEnded;
             AudioAdded AudioScenario.url2]).
Proof. split; reflexivity. Qed.

End AudioClaims.

(* ===================================================================== *)
(** * Properties of the file-upload manager *)
(* ===================================================================== *)

Module FileUploadManagerFacts.
Import FileUploadManager.

Lemma unprocessed_have_no_context_new : unprocessed_have_no_context new.
Proof. intros fileId file Hlook. cbn in Hlook. by rewrite lookup_empty in Hlook. Qed.

Lemma unprocessed_have_no_context_run m c :
  reports_processed c = true ->
  unprocessed_have_no_context m ->
  unprocessed_have_no_context (run m c).
Proof.
  intros Hc Hinv fileId file.
  destruct c as [fileInfo|id|id ok|id status ctx]; cbn.
  - rewrite lookup_insert. case_decide; [|by apply Hinv].
    by intros [= <-].
  - apply Hinv.
  - destruct ok; cbn; [|by apply Hinv].
    rewrite lookup_delete. case_decide; [done|by apply Hinv].
  - cbn in Hc. unfold updateFileStatus.
    destruct (files m !! id) as [old|] eqn:Hold; cbn; [|by apply Hinv].
    rewrite lookup_insert. case_decide; [|by apply Hinv].
    rewrite Hc. intros [= <-]. by destruct (JS.truthy ctx).
Qed.

Lemma unprocessed_have_no_context_foldl history : forall m,
  forallb reports_processed history = true ->
  unprocessed_have_no_context m ->
  unprocessed_have_no_context (foldl run m history).
Proof.
  induction history as [|c history IH]; intros m Hall Hinv; [done|].
  cbn in Hall. apply andb_prop in Hall as [Hc Hall].
  cbn. apply IH; [done|]. by apply unprocessed_have_no_context_run.
Qed.

End FileUploadManagerFacts.

Module FileClaims.
Import FileUploadManager FileUploadManagerFacts.

(** C9, as the code has it.  In every registry reached by calls whose
    status updates all report ['processed'], [getActiveFileContext]
    returns the context of the active record, and [null] when no file is
    active or the active record is not marked processed. *)
Theorem active_context_when_updates_report_processed (history : list Call) :
  forallb reports_processed history = true ->
  getActiveFileContext (after history)
  = active_context_of_processed (after history).
Proof.
  intros Hall.
  pose proof (unprocessed_have_no_context_foldl history new Hall
                unprocessed_have_no_context_new) as Hinv.
  fold (after history) in Hinv.
  unfold getActiveFileContext, active_context_of_processed.
  destruct (activeFile (after history)) as [fileId|]; [|done].
  destruct (String.eqb fileId ""); [done|].
  destruct (files (after history) !! fileId) as [file|] eqn:Hlook; [|done].
  destruct (processed file) eqn:Hp; [done|].
  by apply (Hinv fileId file).
Qed.

Lemma active_context_when_updates_report_processed_witness :
  getActiveFileContext (after FileScenario.processed_context)
  = JS.Str "full context" /\
  active_context_of_processed (after FileScenario.processed_context)
  = JS.Str "full context".
Proof.
  rewrite <- (active_context_when_updates_report_processed
                FileScenario.processed_context) by reflexivity.
  split; vm_compute; reflexivity.
Defined.

(** C9 as stated fails: a status update other than ['processed'] that
    carries a context leaves the record unprocessed with the context
    attached, and [getActiveFileContext] returns it instead of [null]. *)
Lemma unprocessed_active_file_yields_context :
  activeFile (after FileScenario.early_context) = Some "f1" /\
  (processed <$> files (after FileScenario.early_context) !! "f1") = Some false /\
  getActiveFileContext (after FileScenario.early_context)
  = JS.Str "draft context" /\
  getActiveFileContext (after FileScenario.early_context)
  <> active_context_of_processed (after FileScenario.early_context).
Proof. repeat split; try (vm_compute; reflexivity). vm_compute. discriminate. Qed.

End FileClaims.

(* ===================================================================== *)
(** * Further properties of the WebSocket handler *)
(* ===================================================================== *)

Module TransportExtras.
Import WebSocketHandler WebSocketHandlerFacts WebSocketHandlerRest.

Lemma connected_open h :
  connected h = true ->
  exists sock, ws h = Some sock /\ is_open (readyState sock) = true.
Proof.
  unfold connected. destruct (ws h) as [sock|]; [|done]. by exists sock.
Qed.

Lemma sendMessage_accounts message h :
  transmitted (sendMessage message h) ++ messageQueue (sendMessage message h)
  ≡ₚ transmitted h ++ messageQueue h ++ [message].
Proof.
  unfold sendMessage, transmitted.
  destruct (ws h) as [sock|] eqn:Hws; cbn; [|by rewrite Hws].
  destruct (is_open (readyState sock)); cbn; [|by rewrite Hws].
  destruct (send_script h) as [|[] rest]; cbn; rewrite ?Hws; try done.
  - rewrite <- app_assoc. apply Permutation_app_head, Permutation_app_comm.
  - rewrite <- app_assoc. apply Permutation_app_head, Permutation_app_comm.
Qed.

Lemma sendMessage_connected message h :
  connected (sendMessage message h) = connected h.
Proof.
  unfold sendMessage, connected.
  destruct (ws h) as [sock|] eqn:Hws; cbn; [|by rewrite Hws].
  destruct (is_open (readyState sock)) eqn:Hopen; cbn; [|by rewrite Hws, Hopen].
  destruct (send_script h) as [|[] rest]; cbn; by rewrite ?Hws, ?Hopen.
Qed.

(** X1.  However the sends of a list end (transmitted, queued because the
    socket is not open, or queued because the send threw), afterwards the
    messages transmitted and the messages pending are together the earlier
    ones and the list, each message once. *)
Theorem sends_are_transmitted_or_pending (messages : list Message) (h : t) :
  transmitted (sendMessages messages h) ++ messageQueue (sendMessages messages h)
  ≡ₚ transmitted h ++ messageQueue h ++ messages.
Proof.
  revert h. induction messages as [|message messages IH]; intros h.
  - cbn. by rewrite app_nil_r.
  - change (sendMessages (message :: messages) h)
      with (sendMessages messages (sendMessage message h)).
    rewrite IH. change (message :: messages) with ([message] ++ messages).
    rewrite !app_assoc. apply Permutation_app_tail. rewrite <- app_assoc.
    apply sendMessage_accounts.
Qed.

Lemma drain_accounts fuel : forall h drained,
  drain fuel h = Some drained ->
  messageQueue drained = [] /\
  transmitted drained ≡ₚ transmitted h ++ messageQueue h.
Proof.
  induction fuel as [|fuel IH]; intros h drained; cbn;
    destruct (messageQueue h) as [|message rest] eqn:Hq;
    intros Hrun; simplify_eq.
  - by rewrite app_nil_r.
  - by rewrite app_nil_r.
  - apply IH in Hrun as [Hempty Hperm]. split; [done|].
    rewrite Hperm, sendMessage_accounts. cbn.
    apply Permutation_app_head. symmetry. apply Permutation_cons_append.
Qed.

Lemma drain_ends fuel : forall h,
  connected h = true ->
  length (messageQueue h) + length (send_script h) <= fuel ->
  is_Some (drain fuel h).
Proof.
  induction fuel as [|fuel IH]; intros h Hon Hfuel; cbn;
    destruct (messageQueue h) as [|message rest] eqn:Hq; try done.
  - cbn in Hfuel. lia.
  - cbn in Hfuel. apply IH.
    + by rewrite sendMessage_connected.
    + apply connected_open in Hon as (sock & Hws & Hopen).
      unfold sendMessage. cbn. rewrite Hws, Hopen.
      destruct (send_script h) as [|[] script]; cbn in *;
        rewrite ?length_app; cbn; lia.
Qed.

(** X2.  Once the socket is open the loop of [onopen] ends, whatever sends
    throw along the way (the script of outcomes being finite), and when it
    ends the queue is empty and the socket has been given every message
    that was pending, each once. *)
Theorem drain_delivers_every_pending_message (h : t) :
  connected h = true ->
  exists drained,
    drain (length (messageQueue h) + length (send_script h)) h = Some drained /\
    messageQueue drained = [] /\
    transmitted drained ≡ₚ transmitted h ++ messageQueue h.
Proof.
  intros Hon.
  destruct (drain_ends (length (messageQueue h) + length (send_script h)) h)
    as [drained Hrun]; [done|lia|].
  exists drained. split; [done|]. exact (drain_accounts _ _ _ Hrun).
Qed.

Lemma drain_delivers_every_pending_message_witness :
  exists drained,
    drain 2 TransportScenario.after_failed_send = Some drained /\
    messageQueue drained = [] /\
    transmitted drained ≡ₚ [text "a"].
Proof.
  apply (drain_delivers_every_pending_message TransportScenario.after_failed_send).
  reflexivity.
Defined.

(** X3.  Run while the handler's socket is not open, the loop of [onopen]
    never ends once a message is pending: each message it shifts is pushed
    back by [sendMessage]. *)
Theorem drain_without_open_socket_never_ends (fuel : nat) (h : t) :
  connected h = false ->
  messageQueue h <> [] ->
  drain fuel h = None.
Proof.
  revert h. induction fuel as [|fuel IH]; intros h Hoff Hq; cbn;
    destruct (messageQueue h) as [|message rest] eqn:Hqueue; try done.
  apply IH.
  - rewrite sendMessage_connected. by destruct h.
  - rewrite sendMessage_offline by (by destruct h). cbn.
    by destruct rest.
Qed.

Lemma drain_without_open_socket_never_ends_witness :
  drain 1000 (sendMessage (text "a") (TransportScenario.fresh [])) = None.
Proof.
  apply (drain_without_open_socket_never_ends 1000
           (sendMessage (text "a") (TransportScenario.fresh [])));
    [reflexivity|discriminate].
Defined.

Lemma handleReconnect_counts h :
  reconnectAttempts h <= maxReconnectAttempts h ->
  reconnectAttempts (handleReconnect h)
  = Nat.min (S (reconnectAttempts h)) (maxReconnectAttempts h) /\
  length (timers (handleReconnect h))
  = length (timers h)
    + (Nat.min (S (reconnectAttempts h)) (maxReconnectAttempts h)
       - reconnectAttempts h) /\
  maxReconnectAttempts (handleReconnect h) = maxReconnectAttempts h.
Proof.
  intros Hle. unfold handleReconnect.
  destruct (Nat.leb_spec (maxReconnectAttempts h) (reconnectAttempts h)).
  - repeat split; lia.
  - cbn [reconnectAttempts timers maxReconnectAttempts set_timers
           set_reconnectAttempts].
    rewrite length_app. cbn [length]. repeat split; lia.
Qed.

(** X4.  However often a reconnection is asked for without an open in
    between, the counter stops at [maxReconnectAttempts] and one timer is
    armed per counted attempt: never more than the attempts left. *)
Theorem reconnect_attempts_are_capped (n : nat) (h : t) :
  reconnectAttempts h <= maxReconnectAttempts h ->
  let retried := Nat.iter n handleReconnect h in
  reconnectAttempts retried
  = Nat.min (reconnectAttempts h + n) (maxReconnectAttempts h) /\
  length (timers retried)
  = length (timers h)
    + (Nat.min (reconnectAttempts h + n) (maxReconnectAttempts h)
       - reconnectAttempts h) /\
  maxReconnectAttempts retried = maxReconnectAttempts h.
Proof.
  intros Hle. induction n as [|n IH]; cbn zeta in *.
  - cbn. repeat split; lia.
  - cbn [Nat.iter nat_rect]. destruct IH as (Hcount & Htimers & Hmax).
    destruct (handleReconnect_counts (Nat.iter n handleReconnect h))
      as (Hcount' & Htimers' & Hmax'); [lia|].
    unfold Nat.iter in *. rewrite Hcount', Htimers', Hmax', Hcount, Htimers, Hmax.
    repeat split; lia.
Qed.

Lemma reconnect_attempts_are_capped_witness :
  reconnectAttempts (Nat.iter 9 handleReconnect (TransportScenario.opened [])) = 5 /\
  length (timers (Nat.iter 9 handleReconnect (TransportScenario.opened []))) = 5.
Proof.
  destruct (reconnect_attempts_are_capped 9 (TransportScenario.opened []))
    as (Hcount & Htimers & _); [cbn; lia|].
  split; [exact Hcount|exact Htimers].
Defined.

(** X5.  When [new WebSocket] throws, [connect] leaves [isConnecting] set:
    the socket is not replaced, and from then on the reconnect timer's
    callback and [connect] itself do nothing. *)
Theorem constructor_throw_blocks_reconnection (h : t) :
  isConnecting h = false ->
  head (ctor_script h) = Some true ->
  isConnecting (connect h) = true /\
  ws (connect h) = ws h /\
  messageQueue (connect h) = messageQueue h /\
  ontimer (connect h) = connect h /\
  connect (connect h) = connect h.
Proof.
  intros Hflag Hthrow.
  assert (isConnecting (connect h) = true /\ ws (connect h) = ws h /\
          messageQueue (connect h) = messageQueue h) as (Hc & Hws & Hq).
  { unfold connect. rewrite Hflag. cbn.
    destruct (ctor_script h) as [|[] rest]; try done.
    unfold handleReconnect. cbn.
    by destruct (maxReconnectAttempts h <=? reconnectAttempts h)%nat. }
  repeat split; try done.
  - unfold ontimer. by rewrite Hc.
  - unfold connect at 1. by rewrite Hc.
Qed.

Lemma constructor_throw_blocks_reconnection_witness :
  let h := socket_closes (WebSocketHandler.new [] [false; true]) in
  isConnecting (ontimer h) = true /\
  ontimer (ontimer h) = ontimer h /\
  WebSocketHandlerRest.getConnectionStatus (ontimer h) = "disconnected".
Proof.
  intros h.
  destruct (constructor_throw_blocks_reconnection h)
    as (Hflag & _ & _ & Htimer & _); [reflexivity|reflexivity|].
  change (ontimer h) with (connect h).
  by rewrite Htimer, Hflag.
Defined.

(** X6.  A close below the cap followed by its timer replaces the socket by
    a connecting one and keeps the pending queue; when that socket opens,
    the queue is transmitted on it in order and the attempt counter is back
    at zero. *)
Theorem pending_messages_survive_reconnection (h : t) :
  reconnectAttempts h < maxReconnectAttempts h ->
  head (ctor_script h) <> Some true ->
  quiet (length (messageQueue h)) (send_script h) = true ->
  let retrying := ontimer (socket_closes h) in
  messageQueue retrying = messageQueue h /\
  ws retrying = Some (mkWebSocket CONNECTING []) /\
  reconnectAttempts retrying = S (reconnectAttempts h) /\
  exists reopened,
    socket_opens (length (messageQueue h)) retrying = Some reopened /\
    transmitted reopened = messageQueue h /\
    messageQueue reopened = [] /\
    reconnectAttempts reopened = 0.
Proof.
  intros Hbelow Hctor Hquiet retrying.
  assert (retrying
          = set_ws (Some (mkWebSocket CONNECTING []))
              (set_detached
                 (option_list (ws (set_readyState CLOSED h)) ++ detached h)
                 (set_ctor_script (tail (ctor_script h))
                    (set_isConnecting true
                       (set_timers
                          (timers h
                           ++ [(reconnectDelay h
                                * (3 # 2) ^ (Z.of_nat (S (reconnectAttempts h)) - 1))%Q])
                          (set_reconnectAttempts (S (reconnectAttempts h))
                             (set_readyState CLOSED h))))))) as ->.
  { subst retrying. unfold ontimer, socket_closes, onclose, handleReconnect.
    assert (Hleb : (maxReconnectAttempts h <=? reconnectAttempts h)%nat = false)
      by (apply Nat.leb_gt; lia).
    unfold set_readyState, connect.
    destruct (ws h) as [sock|]; cbn; rewrite Hleb; cbn;
      destruct (ctor_script h) as [|[] rest]; done. }
  assert (Hq : messageQueue (set_readyState CLOSED h) = messageQueue h)
    by (unfold set_readyState; by destruct (ws h)).
  assert (Hs : send_script (set_readyState CLOSED h) = send_script h)
    by (unfold set_readyState; by destruct (ws h)).
  cbn. split; [done|]. split; [done|]. split; [done|].
  unfold socket_opens, onopen. cbn.
  erewrite (drain_quiet (messageQueue h)); cbn; rewrite ?Hq, ?Hs; try done.
  eexists. split; [done|]. by cbn.
Qed.

Lemma pending_messages_survive_reconnection_witness :
  let h := sendMessage (text "b")
             (socket_closes (sendMessage (text "a") (TransportScenario.fresh []))) in
  exists reopened,
    socket_opens 2 (ontimer (socket_closes h)) = Some reopened /\
    transmitted reopened = [text "a"; text "b"] /\
    messageQueue reopened = [].
Proof.
  intros h.
  destruct (pending_messages_survive_reconnection h)
    as (_ & _ & _ & reopened & Hopen & Hsent & Hqueue & _).
  - vm_compute. lia.
  - discriminate.
  - reflexivity.
  - exists reopened. by repeat split.
Defined.

Lemma drain_connected fuel : forall h drained,
  drain fuel h = Some drained -> connected drained = connected h.
Proof.
  induction fuel as [|fuel IH]; intros h drained; cbn;
    destruct (messageQueue h) as [|message rest] eqn:Hq;
    intros Hrun; simplify_eq; try done.
  apply IH in Hrun. rewrite Hrun, sendMessage_connected. by destruct h.
Qed.

(** X7.  [getConnectionStatus] follows the socket: it answers ['connected']
    exactly when [sendMessage] would transmit; after a [connect] that builds
    a socket it answers ['connecting'], after the socket's open
    ['connected'], after its close ['disconnected']. *)
Theorem connection_status_follows_socket (h : t) :
  (getConnectionStatus h = "connected" <-> connected h = true) /\
  (isConnecting h = false ->
   head (ctor_script h) <> Some true ->
   getConnectionStatus (connect h) = "connecting") /\
  (is_Some (ws h) ->
   forall fuel opened,
     socket_opens fuel h = Some opened ->
     getConnectionStatus opened = "connected") /\
  getConnectionStatus (socket_closes h) = "disconnected".
Proof.
  assert (Hiff : forall h', getConnectionStatus h' = "connected"
                            <-> connected h' = true).
  { intros h'. unfold getConnectionStatus, connected.
    destruct (ws h') as [[[] ?]|]; cbn; split; done. }
  split; [apply Hiff|]. split; [|split].
  - intros Hflag Hctor. unfold connect. rewrite Hflag. cbn.
    by destruct (ctor_script h) as [|[] rest].
  - intros [sock Hws] fuel opened Hopen. apply Hiff.
    unfold socket_opens, onopen in Hopen.
    apply drain_connected in Hopen. rewrite Hopen.
    unfold set_readyState, connected. by rewrite Hws.
  - unfold socket_closes, onclose, handleReconnect, set_readyState,
      getConnectionStatus.
    destruct (ws h) as [sock|] eqn:Hws; cbn;
      destruct (maxReconnectAttempts h <=? reconnectAttempts h)%nat; cbn;
      by rewrite ?Hws.
Qed.

Lemma connection_status_follows_socket_witness :
  getConnectionStatus (TransportScenario.fresh []) = "connecting" /\
  (getConnectionStatus <$> socket_opens 0 (TransportScenario.fresh []))
  = Some "connected".
Proof.
  destruct (connection_status_follows_socket (TransportScenario.fresh []))
    as (_ & _ & Hopened & _).
  split; [reflexivity|].
  destruct (socket_opens 0 (TransportScenario.fresh [])) as [opened|] eqn:Hopen;
    [|discriminate].
  cbn. f_equal. apply (Hopened ltac:(by eexists) 0 opened Hopen).
Defined.

(** X8.  [standardizeMessage] never changes a property the message has: all
    of them are in the result as they were.  It adds [type: 'unknown'] only
    when the message has no [type] property at all (a [type] that is
    present but falsy is kept as it is), and its own time stamp only when
    the message has no [timestamp]; a string becomes a [text] message. *)
Theorem standardizeMessage_keeps_own_properties
    (now : string) (fields : gmap string JS.Value) :
  (forall key value,
      fields !! key = Some value ->
      standardizeMessage now (OutObject fields) !! key = Some value) /\
  (fields !! "type" = None ->
   standardizeMessage now (OutObject fields) !! "type" = Some (JS.Str "unknown")) /\
  (fields !! "timestamp" = None ->
   standardizeMessage now (OutObject fields) !! "timestamp" = Some (JS.Str now)) /\
  (forall key,
      key <> "type" -> key <> "timestamp" ->
      standardizeMessage now (OutObject fields) !! key = fields !! key) /\
  (forall content,
      standardizeMessage now (OutString content)
      = <["type" := JS.Str "text"]> (<["content" := JS.Str content]> ∅)).
Proof.
  unfold standardizeMessage. repeat split.
  - intros key value Hkey. by apply lookup_union_Some_l.
  - intros Hnone. rewrite lookup_union_r by done.
    rewrite lookup_insert_eq. unfold type_or_unknown. by rewrite Hnone.
  - intros Hnone. rewrite lookup_union_r by done.
    rewrite lookup_insert_ne by done. by rewrite lookup_insert_eq.
  - intros key Htype Htime.
    destruct (fields !! key) as [value|] eqn:Hkey.
    + by apply lookup_union_Some_l.
    + rewrite lookup_union_r by done.
      by rewrite !lookup_insert_ne, lookup_empty.
Qed.

Lemma standardizeMessage_keeps_own_properties_witness :
  standardizeMessage "2024-01-01T00:00:00.000Z"
    (OutObject (<["type" := JS.Str ""]> (<["topic" := JS.Str "rivers"]> ∅)))
  !! "type" = Some (JS.Str "") /\
  standardizeMessage "2024-01-01T00:00:00.000Z"
    (OutObject (<["topic" := JS.Str "rivers"]> ∅))
  !! "type" = Some (JS.Str "unknown").
Proof.
  split.
  - destruct (standardizeMessage_keeps_own_properties "2024-01-01T00:00:00.000Z"
                (<["type" := JS.Str ""]> (<["topic" := JS.Str "rivers"]> ∅)))
      as (Hkept & _).
    apply Hkept. reflexivity.
  - destruct (standardizeMessage_keeps_own_properties "2024-01-01T00:00:00.000Z"
                (<["topic" := JS.Str "rivers"]> ∅))
      as (_ & Hunknown & _).
    apply Hunknown. reflexivity.
Defined.

End TransportExtras.

(* ===================================================================== *)
(** * Further properties of the survey manager and the dispatch *)
(* ===================================================================== *)

Module SurveyExtras.
Import SurveyManager SurveyManagerFacts.

Lemma check_fold_valid (StringToNumber : string -> option Z)
    (qs : list Question) : forall c,
  (forall question,
      question ∈ qs ->
      validateQuestion StringToNumber (manager c) question = None) ->
  foldl (check StringToNumber) c qs = c.
Proof.
  induction qs as [|question qs IH]; intros c Hall; [done|].
  cbn. unfold check at 2. rewrite (Hall question) by apply list_elem_of_here.
  apply IH. intros q Hq. apply Hall. by apply list_elem_of_further.
Qed.

(** X9.  When every question of the current survey passes
    [validateQuestion], [submitSurvey] raises no alert and fills no error
    field: it sets the status line and hands [sendMessage] one
    [survey_submit] carrying the current [surveyId] and responses. *)
Theorem valid_responses_are_submitted
    (StringToNumber : string -> option Z)
    (s : t) (h : WebSocketHandler.t) (survey : Survey) :
  currentSurvey s = Some survey ->
  (forall question,
      question ∈ all_questions survey ->
      validateQuestion StringToNumber s question = None) ->
  submitSurvey StringToNumber (s, h)
  = (updateStatus "提交問卷中..." s,
     WebSocketHandler.sendMessage
       (survey_submit (surveyId s) (surveyResponses s)) h).
Proof.
  intros Hsurvey Hvalid.
  unfold submitSurvey, validateResponses. rewrite Hsurvey.
  rewrite check_section_fold.
  rewrite check_fold_valid by done. done.
Qed.

Lemma valid_responses_are_submitted_witness :
  (WebSocketHandler.transmitted
     (submitSurvey SurveyScenario.no_number
        (MoreScenarios.answered, TransportScenario.opened [])).2)
  = [survey_submit (Some "s1") (surveyResponses MoreScenarios.answered)].
Proof.
  rewrite (valid_responses_are_submitted SurveyScenario.no_number
             MoreScenarios.answered (TransportScenario.opened [])
             SurveyScenario.survey1).
  - reflexivity.
  - reflexivity.
  - intros question Hin. vm_compute in Hin.
    repeat (apply elem_of_cons in Hin as [->|Hin]; [reflexivity|]).
    by apply elem_of_nil in Hin.
Defined.

(** X10.  For a rating question with both bounds set and a stored rating
    other than 0, [validateQuestion] reports the rating against the bound it
    breaks and accepts it exactly when it lies between the bounds, both
    included. *)
Theorem rating_is_checked_against_bounds
    (StringToNumber : string -> option Z)
    (s : t) (question : Question) (v : Validation) (lo hi value : Z) :
  type question = "rating" ->
  validation question = Some v ->
  min v = Some lo -> max v = Some hi ->
  lo <> 0%Z -> hi <> 0%Z -> value <> 0%Z ->
  surveyResponses s !! question_id question = Some (JS.Number value) ->
  validateQuestion StringToNumber s question
  = (if (value <? lo)%Z then
       Some (title question +:+ " 最小評分為 " +:+ pretty lo)
     else if (hi <? value)%Z then
       Some (title question +:+ " 最大評分為 " +:+ pretty hi)
     else None).
Proof.
  intros Htype Hval Hmin Hmax Hlo Hhi Hvalue Hresp.
  assert (Hf : JS.falsy (JS.Number value) = false)
    by (unfold JS.falsy, JS.truthy; apply Z.eqb_neq in Hvalue;
        by rewrite Hvalue).
  assert (Hlo' : JS.truthy_num (Some lo) = true)
    by (unfold JS.truthy_num; apply Z.eqb_neq in Hlo; by rewrite Hlo).
  assert (Hhi' : JS.truthy_num (Some hi) = true)
    by (unfold JS.truthy_num; apply Z.eqb_neq in Hhi; by rewrite Hhi).
  unfold validateQuestion, response_of. rewrite Hresp.
  change (default JS.Undefined (Some (JS.Number value))) with (JS.Number value).
  rewrite Hf, andb_false_r, Htype, Hval.
  change (default no_validation (Some v)) with v.
  rewrite Hmin, Hmax, Hlo', Hhi'. done.
Qed.

Lemma rating_is_checked_against_bounds_witness :
  validateQuestion SurveyScenario.no_number
    (set_surveyResponses (<["q2" := JS.Number 7]> ∅) SurveyScenario.answering)
    SurveyScenario.q_score
  = Some "Score 最大評分為 5" /\
  validateQuestion SurveyScenario.no_number MoreScenarios.answered
    SurveyScenario.q_score
  = None.
Proof.
  split.
  - apply (rating_is_checked_against_bounds SurveyScenario.no_number
             _ SurveyScenario.q_score
             (mkValidation None None None None (Some 1%Z) (Some 5%Z)) 1 5 7);
      (reflexivity || discriminate).
  - apply (rating_is_checked_against_bounds SurveyScenario.no_number
             _ SurveyScenario.q_score
             (mkValidation None None None None (Some 1%Z) (Some 5%Z)) 1 5 4);
      (reflexivity || discriminate).
Defined.

(** X25.  The length bounds of a text or multiple-choice question are
    enforced only on a response that has a length: a truthy response that
    is neither a string nor an array (a number, [true]) passes whatever the
    bounds are. *)
Theorem bounds_are_skipped_without_length
    (StringToNumber : string -> option Z)
    (s : t) (question : Question) (response : JS.Value) :
  type question = "text" \/ type question = "multiple_choice" ->
  surveyResponses s !! question_id question = Some response ->
  JS.truthy response = true ->
  JS.length response = None ->
  validateQuestion StringToNumber s question = None.
Proof.
  intros Htype Hresp Htruthy Hlength.
  unfold validateQuestion, response_of. rewrite Hresp.
  change (default JS.Undefined (Some response)) with response.
  unfold JS.falsy. rewrite Htruthy, andb_false_r. cbn [negb].
  unfold JS.gt. rewrite Hlength.
  assert (Hlt_l : forall n, JS.lt None n = false) by done.
  assert (Hlt_r : forall n, JS.lt n None = false) by (by intros [n|]).
  rewrite !Hlt_l, !Hlt_r, !andb_false_r.
  destruct Htype as [-> | ->].
  - change ("text" =? "multiple_choice") with false.
    by change ("text" =? "text") with true.
  - by change ("multiple_choice" =? "multiple_choice") with true.
Qed.

Lemma bounds_are_skipped_without_length_witness :
  validateQuestion SurveyScenario.no_number
    (set_surveyResponses (<["q1" := JS.Number 5]> ∅) SurveyScenario.answering)
    SurveyScenario.q_name
  = None.
Proof.
  apply (bounds_are_skipped_without_length SurveyScenario.no_number
           _ SurveyScenario.q_name (JS.Number 5)); [by left|reflexivity..].
Defined.

(** X11.  A selection is an array, and an array is truthy even when empty:
    a required multiple-choice question that has no [validation] block
    accepts any selection, the empty one included. *)
Theorem empty_selection_passes_required_check
    (StringToNumber : string -> option Z)
    (s : t) (question : Question) (items : list string) :
  type question = "multiple_choice" ->
  validation question = None ->
  surveyResponses s !! question_id question = Some (JS.Arr items) ->
  validateQuestion StringToNumber s question = None.
Proof.
  intros Htype Hval Hresp. unfold validateQuestion, response_of.
  rewrite Hresp, Htype, Hval. cbn. by rewrite andb_false_r.
Qed.

Lemma empty_selection_passes_required_check_witness :
  validateQuestion SurveyScenario.no_number
    (set_surveyResponses (<["q5" := JS.Arr []]> ∅) SurveyScenario.answering)
    MoreScenarios.q_required_choice
  = None.
Proof.
  apply (empty_selection_passes_required_check SurveyScenario.no_number
           _ MoreScenarios.q_required_choice []); reflexivity.
Defined.

End SurveyExtras.

Module SurveyPageExtras.
Import SurveyManager.






End SurveyPageExtras.

Module ClientExtras.
Import SurveyManager.

(** X12.  An inbound frame reaches one component only: the handler sends
    nothing unless the frame is a [survey_analysis], the audio queue is
    untouched unless it is a [section_ready], and the stored responses are
    untouched unless it is a [complete] (which resets the survey manager);
    the page's globals stay as they are. *)
Theorem inbound_frame_touches_one_component
    (c : Client.t) (frame : option Response) :
  (frame ≫= kind <> Some "survey_analysis" ->
   Client.wsHandler (Client.onmessage frame c) = Client.wsHandler c) /\
  (frame ≫= kind <> Some "section_ready" ->
   Client.audioManager (Client.onmessage frame c) = Client.audioManager c) /\
  (frame ≫= kind <> Some "complete" ->
   surveyResponses <$> Client.surveyManager (Client.onmessage frame c)
   = surveyResponses <$> Client.surveyManager c) /\
  Client.window_surveyManager (Client.onmessage frame c)
  = Client.window_surveyManager c /\
  Client.window_audioManager (Client.onmessage frame c)
  = Client.window_audioManager c.
Proof.
  destruct frame as [response|]; [|done]. cbn.
  destruct (Client.present (error response)); [done|].
  destruct (kind response) as [type|]; [|done].
  destruct (String.eqb_spec type "survey_generated") as [->|_].
  { destruct (Client.surveyManager c) as [s|] eqn:Hs; cbn; rewrite ?Hs; [|done].
    repeat split; try done. intros _.
    unfold handleSurveyGenerated. by destruct (snd (renderSurvey _)). }
  destruct (String.eqb_spec type "survey_analysis") as [->|_].
  { destruct (Client.surveyManager c) as [s|] eqn:Hs; cbn; rewrite ?Hs; [|done].
    unfold handleAnalysisReceived.
    destruct (renderAnalysis _ _); cbn; repeat split; done. }
  destruct (String.eqb_spec type "program_plan") as [->|_].
  { destruct (Client.surveyManager c) as [s|] eqn:Hs; cbn; rewrite ?Hs; [|done].
    repeat split; try done. intros _.
    unfold handlePlanReceived. by destruct (renderPlan _ _). }
  destruct (String.eqb_spec type "section_ready") as [->|_].
  { unfold Client.handleSectionReady.
    destruct (audio_file response) as [path|]; [|done].
    destruct (negb (path =? "") && Client.window_audioManager c); [|done].
    cbn. repeat split; done. }
  destruct (String.eqb_spec type "complete") as [->|_]; [|done].
  unfold Client.handleComplete.
  destruct (Client.window_surveyManager c) eqn:Hw; [|done].
  destruct (Client.surveyManager c) as [s|] eqn:Hs; cbn; rewrite ?Hs, ?Hw; [|done].
  repeat split; done.
Qed.

Lemma inbound_frame_touches_one_component_witness :
  Client.wsHandler
    (Client.onmessage (Some ClientScenario.generated2) ClientScenario.planned)
  = Client.wsHandler ClientScenario.planned /\
  surveyResponses <$>
    Client.surveyManager
      (Client.onmessage (Some ClientScenario.generated2) ClientScenario.planned)
  = surveyResponses <$> Client.surveyManager ClientScenario.planned.
Proof.
  destruct (inbound_frame_touches_one_component ClientScenario.planned
              (Some ClientScenario.generated2))
    as (Hhandler & _ & Hresponses & _).
  split; [apply Hhandler|apply Hresponses]; discriminate.
Defined.



End ClientExtras.

(* ===================================================================== *)
(** * Further properties of the audio manager *)
(* ===================================================================== *)

Module AudioExtras.
Import AudioManager AudioManagerFacts.

(** What [playNext] can leave behind, started with the cursor at -1 or
    later: the queue and the numbering as they were, and either the stopped
    player or an element further on playing. *)
Lemma playNext_loop_result fuel : forall p p',
  (-1 <= currentAudioIndex p)%Z ->
  playNext_loop fuel p = Some p' ->
  audioQueue p' = audioQueue p /\
  next_id p' = next_id p /\
  ((currentAudioIndex p' = (-1)%Z /\ currentAudio p' = None /\ isPlaying p' = false)
   \/ ((currentAudioIndex p < currentAudioIndex p')%Z /\
       isPlaying p' = true /\
       exists audio,
         currentAudio p' = Some audio /\
         at_index (audioQueue p) (currentAudioIndex p') = Some audio)).
Proof.
  induction fuel as [|fuel IH]; intros p p' Hidx; cbn [playNext_loop]; cbn zeta;
    (destruct (Z.ltb_spec
                 (currentAudioIndex (set_currentAudioIndex (currentAudioIndex p + 1) p))
                 (queue_length (set_currentAudioIndex (currentAudioIndex p + 1) p)))
      as [Hlt|Hge];
     [|intros [= <-]; split; [done|]; split; [done|]; by left]);
    cbn in Hlt;
    change (audioQueue (set_currentAudioIndex (currentAudioIndex p + 1) p))
      with (audioQueue p);
    change (currentAudioIndex (set_currentAudioIndex (currentAudioIndex p + 1) p))
      with (currentAudioIndex p + 1)%Z;
    destruct (at_index (audioQueue p) (currentAudioIndex p + 1))
      as [audio|] eqn:Hat; try done.
  - change (play_script (set_currentAudio (Some audio)
              (set_currentAudioIndex (currentAudioIndex p + 1) p)))
      with (play_script p).
    destruct (play_script p) as [|[] rest]; try done;
      intros [= <-]; (split; [done|]; split; [done|]; right;
        split; [cbn; lia|]; split; [done|]; by exists audio).
  - change (play_script (set_currentAudio (Some audio)
              (set_currentAudioIndex (currentAudioIndex p + 1) p)))
      with (play_script p).
    destruct (play_script p) as [|[] rest].
    + intros [= <-]. split; [done|]. split; [done|]. right.
      split; [cbn; lia|]. split; [done|]. by exists audio.
    + intros Hrun. apply IH in Hrun; [|cbn; lia]. cbn in Hrun.
      destruct Hrun as (Hq & Hn & [Hstop|(Hlt' & Hplay & Hcur)]).
      * split; [done|]. split; [done|]. by left.
      * split; [done|]. split; [done|]. right. split; [lia|]. done.
    + intros [= <-]. split; [done|]. split; [done|]. right.
      split; [cbn; lia|]. split; [done|]. by exists audio.
  - intros Hrun. apply IH in Hrun; [|cbn; lia]. cbn in Hrun.
    destruct Hrun as (Hq & Hn & [Hstop|(Hlt' & Hplay & Hcur)]).
    + split; [done|]. split; [done|]. by left.
    + split; [done|]. split; [done|]. right. split; [lia|]. done.
Qed.

(** X14.  [playNext] never moves the cursor backwards: it ends either with
    the cursor further on and that element playing, or with the cursor
    reset to -1 and the player stopped; the queue is left as it was. *)
Theorem playNext_moves_forward_or_resets (p p' : t) :
  (-1 <= currentAudioIndex p)%Z ->
  playNext p = Some p' ->
  audioQueue p' = audioQueue p /\
  ((currentAudioIndex p' = (-1)%Z /\ currentAudio p' = None /\ isPlaying p' = false)
   \/ ((currentAudioIndex p < currentAudioIndex p' < queue_length p)%Z /\
       isPlaying p' = true /\
       at_index (audioQueue p) (currentAudioIndex p') = currentAudio p')).
Proof.
  intros Hidx Hrun.
  destruct (playNext_loop_result _ _ _ Hidx Hrun)
    as (Hq & _ & [Hstop|(Hlt & Hplay & audio & Hcur & Hat)]).
  - auto.
  - split; [done|]. right. rewrite Hcur, Hat. split; [|done].
    apply at_index_Some in Hat. unfold queue_length. lia.
Qed.

Lemma playNext_moves_forward_or_resets_witness :
  exists p',
    playNext AudioScenario.three_queued = Some p' /\
    (-1 < currentAudioIndex p' < 3)%Z.
Proof.
  destruct (playNext AudioScenario.three_queued) as [p'|] eqn:Hrun;
    [|discriminate].
  exists p'. split; [done|].
  destruct (playNext_moves_forward_or_resets AudioScenario.three_queued p')
    as (_ & [(Hstop & _)|(Hrange & _)]); [cbn; lia|exact Hrun| |exact Hrange].
  vm_compute in Hrun. injection Hrun as <-. discriminate.
Defined.

Lemma playNext_loop_all_fail (k : nat) : forall fuel p,
  k <= fuel ->
  (-1 <= currentAudioIndex p)%Z ->
  (currentAudioIndex p + 1 + Z.of_nat k = queue_length p)%Z ->
  take k (play_script p) = replicate k true ->
  playNext_loop fuel p
  = Some (mk (audioQueue p) (-1) false None (next_id p)
            (drop k (play_script p))
            (log p ++ replicate k PlayFailed ++ [QueueEnded])).
Proof.
  induction k as [|k IH]; intros fuel p Hfuel Hidx Hlen Htake.
  - destruct fuel; cbn [playNext_loop]; cbn zeta;
      (destruct (Z.ltb_spec
                   (currentAudioIndex (set_currentAudioIndex (currentAudioIndex p + 1) p))
                   (queue_length (set_currentAudioIndex (currentAudioIndex p + 1) p)))
        as [Hlt|_]; [unfold queue_length in *; cbn in Hlt; lia|]);
      done.
  - destruct fuel as [|fuel]; [lia|].
    destruct (at_index_is_Some (audioQueue p) (currentAudioIndex p + 1))
      as [skipped Hskipped]; [unfold queue_length in Hlen; lia|].
    destruct (play_script p) as [|[] rest] eqn:Hscript; cbn in Htake; try done.
    cbn [playNext_loop]. cbn zeta.
    destruct (Z.ltb_spec
                (currentAudioIndex (set_currentAudioIndex (currentAudioIndex p + 1) p))
                (queue_length (set_currentAudioIndex (currentAudioIndex p + 1) p)))
      as [_|Hge]; [|unfold queue_length in *; cbn in Hge; lia].
    cbn. rewrite Hskipped. cbn. rewrite Hscript.
    rewrite (IH fuel); cbn; try lia.
    + by rewrite <- app_assoc.
    + unfold queue_length in *. cbn. lia.
    + by injection Htake.
Qed.

(** X16.  When the [play()] of every segment after the cursor rejects,
    [playNext] logs each failure and then stops at the end of the queue:
    cursor -1, not playing, no current element, the queue kept. *)
Theorem all_failures_end_the_queue (p : t) (k : nat) :
  (-1 <= currentAudioIndex p)%Z ->
  (currentAudioIndex p + 1 + Z.of_nat k = queue_length p)%Z ->
  take k (play_script p) = replicate k true ->
  playNext p
  = Some (mk (audioQueue p) (-1) false None (next_id p)
            (drop k (play_script p))
            (log p ++ replicate k PlayFailed ++ [QueueEnded])).
Proof.
  intros Hidx Hlen Htake. apply playNext_loop_all_fail; try done.
  unfold playNext_fuel. lia.
Qed.

Lemma all_failures_end_the_queue_witness :
  playNext MoreScenarios.two_unplayable
  = Some (mk (audioQueue MoreScenarios.two_unplayable) (-1) false None 2 []
            (log MoreScenarios.two_unplayable
             ++ [PlayFailed; PlayFailed; QueueEnded])).
Proof.
  apply (all_failures_end_the_queue MoreScenarios.two_unplayable 2);
    [vm_compute; discriminate|reflexivity|reflexivity].
Defined.

(** X17.  Pressed while nothing plays and the cursor is at -1 or on the
    last segment (so also when playback was paused during the last
    segment), play-all starts over from the first segment of the queue. *)
Theorem play_all_restarts_from_first_segment
    (p : t) (first : Audio) (others : list Audio) :
  isPlaying p = false ->
  currentAudioIndex p = (-1)%Z \/ (queue_length p - 1 <= currentAudioIndex p)%Z ->
  audioQueue p = first :: others ->
  head (play_script p) <> Some true ->
  togglePlayAll p
  = Some (mk (audioQueue p) 0 true (Some first) (next_id p)
            (tail (play_script p))
            (log p ++ [PlayStarted 1 (queue_length p)])).
Proof.
  intros Hplaying Hcursor Hqueue Hscript.
  unfold togglePlayAll. rewrite Hplaying.
  assert (((currentAudioIndex p =? -1)%Z
           || (queue_length p - 1 <=? currentAudioIndex p)%Z) = true) as ->.
  { apply orb_true_iff. destruct Hcursor as [->|Hlast]; [by left|right].
    by apply Z.leb_le. }
  unfold playNext.
  rewrite (playNext_loop_skips 0 _ _ first); cbn; try done; try lia.
  - destruct (play_script p) as [|[] rest]; cbn in *; done.
  - by rewrite Hqueue.
Qed.

Lemma play_all_restarts_from_first_segment_witness :
  (currentAudioIndex <$> togglePlayAll MoreScenarios.paused_on_last) = Some 0%Z /\
  (currentAudio <$> togglePlayAll MoreScenarios.paused_on_last)
  = Some (Some (mkAudio 0 AudioScenario.url1)).
Proof.
  rewrite (play_all_restarts_from_first_segment MoreScenarios.paused_on_last
             (mkAudio 0 AudioScenario.url1) [mkAudio 1 AudioScenario.url2]);
    [by split|reflexivity|right; vm_compute; discriminate|reflexivity|discriminate].
Defined.

(** X26.  When the [play()] of the next [k] segments rejects and the one
    after them resolves, [playNext] logs each failure, moves the cursor
    past the failed segments and starts the following one: the player
    ends up playing it, with the queue untouched. *)
Theorem failed_segments_are_skipped (p : t) (k : nat) (audio : Audio) :
  (-1 <= currentAudioIndex p)%Z ->
  take k (play_script p) = replicate k true ->
  play_script p !! k <> Some true ->
  at_index (audioQueue p) (currentAudioIndex p + 1 + Z.of_nat k) = Some audio ->
  playNext p
  = Some (mk (audioQueue p) (currentAudioIndex p + 1 + Z.of_nat k) true
            (Some audio) (next_id p) (drop (S k) (play_script p))
            (log p ++ replicate k PlayFailed ++
               [PlayStarted (currentAudioIndex p + 1 + Z.of_nat k + 1)
                  (queue_length p)])).
Proof.
  intros Hidx Htake Hnext Hat. apply playNext_loop_skips; try done.
  apply at_index_Some in Hat. unfold playNext_fuel, queue_length. lia.
Qed.

Lemma failed_segments_are_skipped_witness :
  playNext AudioScenario.three_queued
  = Some (mk (audioQueue AudioScenario.three_queued) 1 true
            (Some (mkAudio 1 AudioScenario.url2)) 3 []
            (log AudioScenario.three_queued ++ [PlayFailed; PlayStarted 2 3])).
Proof.
  apply (failed_segments_are_skipped AudioScenario.three_queued 1
           (mkAudio 1 AudioScenario.url2)).
  - vm_compute. discriminate.
  - reflexivity.
  - vm_compute. discriminate.
  - reflexivity.
Defined.

End AudioExtras.

(* ===================================================================== *)
(** * Properties of the audio manager under interleaving *)
(* ===================================================================== *)

Module AudioEventsExtras.
Import AudioManager AudioManagerFacts.

(** The start of [playNext] always returns. *)
Lemma playNext_begin_total fuel : forall p,
  Z.to_nat (-1 - currentAudioIndex p) <= fuel ->
  is_Some (AudioEvents.playNext_begin fuel p).
Proof.
  induction fuel as [|fuel IH]; intros p Hfuel;
    cbn [AudioEvents.playNext_begin]; cbn zeta;
    (destruct (Z.ltb_spec
                 (currentAudioIndex (set_currentAudioIndex (currentAudioIndex p + 1) p))
                 (queue_length (set_currentAudioIndex (currentAudioIndex p + 1) p)))
      as [Hlt|Hge]; [|done]);
    unfold queue_length in Hlt; cbn in Hlt;
    change (audioQueue (set_currentAudioIndex (currentAudioIndex p + 1) p))
      with (audioQueue p);
    change (currentAudioIndex (set_currentAudioIndex (currentAudioIndex p + 1) p))
      with (currentAudioIndex p + 1)%Z.
  - destruct (at_index_is_Some (audioQueue p) (currentAudioIndex p + 1))
      as [audio ->]; [lia|done].
  - destruct (at_index (audioQueue p) (currentAudioIndex p + 1)) as [audio|] eqn:Hat;
      [done|].
    apply IH. cbn.
    destruct (Z.ltb_spec (currentAudioIndex p + 1) 0) as [Hneg|Hpos]; [lia|].
    destruct (at_index_is_Some (audioQueue p) (currentAudioIndex p + 1))
      as [audio Hsome]; [lia|congruence].
Qed.

(** What the start of [playNext] leaves: the queue and the numbering as
    they were, and either a call waiting for the element under the cursor,
    now the current one, or the stopped player. *)
Lemma playNext_begin_result fuel : forall p p' waiting,
  AudioEvents.playNext_begin fuel p = Some (p', waiting) ->
  audioQueue p' = audioQueue p /\
  next_id p' = next_id p /\
  match waiting with
  | Some audio =>
      currentAudio p' = Some audio /\
      at_index (audioQueue p) (currentAudioIndex p') = Some audio
  | None => currentAudioIndex p' = (-1)%Z /\ currentAudio p' = None
  end.
Proof.
  induction fuel as [|fuel IH]; intros p p' waiting;
    cbn [AudioEvents.playNext_begin]; cbn zeta;
    (destruct (Z.ltb_spec
                 (currentAudioIndex (set_currentAudioIndex (currentAudioIndex p + 1) p))
                 (queue_length (set_currentAudioIndex (currentAudioIndex p + 1) p)))
      as [Hlt|Hge]; [|by intros [= <- <-]]);
    change (audioQueue (set_currentAudioIndex (currentAudioIndex p + 1) p))
      with (audioQueue p);
    change (currentAudioIndex (set_currentAudioIndex (currentAudioIndex p + 1) p))
      with (currentAudioIndex p + 1)%Z;
    (destruct (at_index (audioQueue p) (currentAudioIndex p + 1)) as [audio|] eqn:Hat;
     [by intros [= <- <-]|]); [done|].
  intros Hrec. apply IH in Hrec. exact Hrec.
Qed.

Lemma page_playNext_total g : is_Some (AudioEvents.playNext g).
Proof.
  unfold AudioEvents.playNext.
  destruct (playNext_begin_total (AudioEvents.playNext_begin_fuel (AudioEvents.manager g))
              (AudioEvents.manager g)) as [[p [audio|]] ->]; done.
Qed.

Lemma consistent_playNext g g' :
  Forall (fun audio => audio_id audio < next_id (AudioEvents.manager g))
    (audioQueue (AudioEvents.manager g)) ->
  NoDup (audio_id <$> audioQueue (AudioEvents.manager g)) ->
  AudioEvents.playNext g = Some g' ->
  AudioEvents.consistent (AudioEvents.manager g').
Proof.
  intros Hids Hdup. unfold AudioEvents.playNext.
  destruct (AudioEvents.playNext_begin _ _) as [[p waiting]|] eqn:Hbegin; [|done].
  apply playNext_begin_result in Hbegin as (Hq & Hn & Hw).
  assert (AudioEvents.consistent p) as Hp.
  { unfold AudioEvents.consistent, queue_length. rewrite Hq, Hn.
    destruct waiting as [audio|].
    - destruct Hw as [-> Hat]. repeat split; try done;
        apply at_index_Some in Hat; lia.
    - destruct Hw as [-> ->]. repeat split; try done; lia. }
  by destruct waiting; intros [= <-].
Qed.

Lemma consistent_pauseCurrent p :
  AudioEvents.consistent p -> AudioEvents.consistent (pauseCurrent p).
Proof.
  unfold pauseCurrent, AudioEvents.consistent, queue_length.
  destruct (currentAudio p) as [audio|] eqn:Hc; cbn; rewrite ?Hc; done.
Qed.

Lemma consistent_resumeCurrent g :
  AudioEvents.consistent (AudioEvents.manager g) ->
  AudioEvents.consistent (AudioEvents.manager (AudioEvents.resumeCurrent g)).
Proof.
  unfold AudioEvents.resumeCurrent.
  by destruct (currentAudio (AudioEvents.manager g)).
Qed.

Lemma step_total g e : is_Some (AudioEvents.step g e).
Proof.
  destruct e as [audioUrl|audio|audio| | | |i resolved]; cbn; try done.
  - unfold AudioEvents.onended.
    destruct (currentAudio _) as [current|]; [|done].
    destruct (same_audio audio current); [apply page_playNext_total|done].
  - unfold AudioEvents.togglePlayAll. destruct (isPlaying _); [done|].
    destruct (_ || _); [apply page_playNext_total|done].
  - unfold AudioEvents.settles.
    destruct (AudioEvents.pending g !! i) as [[audio|audio]|]; [| |done];
      destruct resolved; try done.
    apply page_playNext_total.
Qed.

Lemma consistent_step g e g' :
  AudioEvents.consistent (AudioEvents.manager g) ->
  AudioEvents.step g e = Some g' ->
  AudioEvents.consistent (AudioEvents.manager g').
Proof.
  intros Hg. pose proof Hg as (Hidx & Hcur & Hids & Hdup).
  destruct e as [audioUrl|audio|audio| | | |i resolved]; cbn.
  - intros [= <-].
    unfold AudioEvents.consistent, queue_length, addAudio in *. cbn.
    rewrite length_app, fmap_app. cbn. repeat split; try lia.
    + destruct (currentAudio (AudioEvents.manager g)) as [audio|]; [|done].
      unfold at_index in *.
      destruct (Z.ltb_spec (currentAudioIndex (AudioEvents.manager g)) 0); [done|].
      by apply lookup_app_l_Some.
    + apply Forall_app. split.
      * eapply Forall_impl; [exact Hids|]. cbn. lia.
      * apply Forall_singleton. cbn. lia.
    + apply NoDup_app. split; [done|]. split; [|apply NoDup_singleton].
      intros id Hin ->%list_elem_of_singleton.
      apply list_elem_of_fmap in Hin as (audio & Hid & Hin).
      rewrite Forall_forall in Hids. apply Hids in Hin. lia.
  - unfold AudioEvents.onended.
    destruct (currentAudio (AudioEvents.manager g)) as [current|];
      [|by intros [= <-]].
    destruct (same_audio audio current); [|by intros [= <-]].
    by apply consistent_playNext.
  - by intros [= <-].
  - unfold AudioEvents.togglePlayAll.
    destruct (isPlaying (AudioEvents.manager g)).
    + intros [= <-]. by apply consistent_pauseCurrent.
    + destruct (_ || _).
      * by apply consistent_playNext.
      * intros [= <-]. by apply consistent_resumeCurrent.
  - intros [= <-]. unfold AudioEvents.togglePause.
    destruct (isPlaying (AudioEvents.manager g));
      [by apply consistent_pauseCurrent|by apply consistent_resumeCurrent].
  - intros [= <-]. unfold AudioEvents.consistent, queue_length, reset. cbn.
    repeat split; try done; try lia. apply NoDup_nil_2.
  - unfold AudioEvents.settles.
    destruct (AudioEvents.pending g !! i) as [[audio|audio]|];
      [| |by intros [= <-]]; destruct resolved; try by intros [= <-].
    by apply consistent_playNext.
Qed.

Lemma playNext_begin_at fuel p audio :
  at_index (audioQueue p) (currentAudioIndex p + 1) = Some audio ->
  AudioEvents.playNext_begin fuel p
  = Some (set_currentAudio (Some audio)
            (set_currentAudioIndex (currentAudioIndex p + 1) p), Some audio).
Proof.
  intros Hat. pose proof (at_index_Some _ _ _ Hat) as Hi.
  destruct fuel; cbn [AudioEvents.playNext_begin]; cbn zeta;
    (destruct (Z.ltb_spec
                 (currentAudioIndex (set_currentAudioIndex (currentAudioIndex p + 1) p))
                 (queue_length (set_currentAudioIndex (currentAudioIndex p + 1) p)))
      as [_|Hge]; [|unfold queue_length in Hge; cbn in Hge; lia]);
    cbn; by rewrite Hat.
Qed.

Lemma playNext_begin_end fuel p :
  (queue_length p <= currentAudioIndex p + 1)%Z ->
  AudioEvents.playNext_begin fuel p
  = Some (debug QueueEnded
            (set_currentAudio None
               (set_isPlaying false
                  (set_currentAudioIndex (-1)
                     (set_currentAudioIndex (currentAudioIndex p + 1) p)))),
          None).
Proof.
  intros Hend.
  destruct fuel; cbn [AudioEvents.playNext_begin]; cbn zeta;
    (destruct (Z.ltb_spec
                 (currentAudioIndex (set_currentAudioIndex (currentAudioIndex p + 1) p))
                 (queue_length (set_currentAudioIndex (currentAudioIndex p + 1) p)))
      as [Hlt|_]; [unfold queue_length in *; cbn in Hlt; lia|]);
    done.
Qed.

(** [AudioManager.playNext_loop] is [playNext] under the schedule in which
    each promise settles at once, with the outcomes of [play_script]. *)
Lemma playNext_loop_settles_at_once fuel : forall p,
  (-1 <= currentAudioIndex p)%Z ->
  Z.to_nat (queue_length p - 1 - currentAudioIndex p) <= fuel ->
  playNext_loop fuel p
  = AudioEvents.manager
      <$> (AudioEvents.playNext (AudioEvents.mkPage p [])
             ≫= AudioEvents.settle_at_once (S fuel)).
Proof.
  induction fuel as [|fuel IH]; intros p Hidx Hfuel.
  - unfold AudioEvents.playNext. cbn [AudioEvents.manager AudioEvents.pending].
    rewrite playNext_begin_end by (unfold queue_length in *; lia).
    cbn [playNext_loop]. cbn zeta.
    destruct (Z.ltb_spec
                (currentAudioIndex (set_currentAudioIndex (currentAudioIndex p + 1) p))
                (queue_length (set_currentAudioIndex (currentAudioIndex p + 1) p)))
      as [Hlt|_]; [unfold queue_length in *; cbn in Hlt; lia|].
    done.
  - unfold AudioEvents.playNext. cbn [AudioEvents.manager AudioEvents.pending].
    cbn [playNext_loop]. cbn zeta.
    destruct (Z.ltb_spec
                (currentAudioIndex (set_currentAudioIndex (currentAudioIndex p + 1) p))
                (queue_length (set_currentAudioIndex (currentAudioIndex p + 1) p)))
      as [Hlt|Hge].
    + unfold queue_length in Hlt. cbn in Hlt.
      destruct (at_index_is_Some (audioQueue p) (currentAudioIndex p + 1))
        as [audio Hat]; [lia|].
      rewrite (playNext_begin_at _ _ audio Hat).
      change (audioQueue (set_currentAudioIndex (currentAudioIndex p + 1) p))
        with (audioQueue p).
      change (currentAudioIndex (set_currentAudioIndex (currentAudioIndex p + 1) p))
        with (currentAudioIndex p + 1)%Z.
      rewrite Hat. cbn [app mbind option_bind AudioEvents.settle_at_once
                         AudioEvents.pending AudioEvents.manager].
      change (play_script
                (set_currentAudio (Some audio)
                   (set_currentAudioIndex (currentAudioIndex p + 1) p)))
        with (play_script p).
      destruct (play_script p) as [|[] rest] eqn:Hscript; try done.
      cbn [AudioEvents.settles AudioEvents.set_manager AudioEvents.pending
           AudioEvents.manager lookup list_lookup delete list_delete].
      rewrite IH; [done| |].
      * cbn. lia.
      * unfold queue_length in *. cbn. lia.
    + unfold queue_length in Hge. cbn in Hge.
      rewrite playNext_begin_end by (unfold queue_length; lia).
      done.
Qed.

(** The start of a manager's [playNext], as a whole. *)
Lemma playNext_settles_at_once p :
  (-1 <= currentAudioIndex p)%Z ->
  AudioManager.playNext p
  = AudioEvents.manager
      <$> (AudioEvents.playNext (AudioEvents.mkPage p [])
             ≫= AudioEvents.settle_at_once (S (playNext_fuel p))).
Proof.
  intros Hidx. apply playNext_loop_settles_at_once; [done|].
  unfold playNext_fuel. lia.
Qed.

(** X15.  Whatever segments arrive, elements end or report errors,
    buttons are pressed, resets happen and promises settle, in any order,
    every handler returns and the manager stays consistent: the cursor is
    -1 or an index of the queue; with no current element the cursor is -1,
    otherwise it points at the current element; the queued elements are
    distinct. *)
Theorem audio_manager_stays_consistent
    (events : list AudioEvents.Event) (play_outcomes : list bool) :
  exists g,
    AudioEvents.run events (AudioEvents.mkPage (new play_outcomes) []) = Some g /\
    AudioEvents.consistent (AudioEvents.manager g).
Proof.
  assert (forall g0, AudioEvents.consistent (AudioEvents.manager g0) ->
            exists g, AudioEvents.run events g0 = Some g /\
                      AudioEvents.consistent (AudioEvents.manager g)) as Hrun.
  { induction events as [|e events IH]; intros g0 Hg0; cbn.
    - by exists g0.
    - destruct (step_total g0 e) as [g1 Hstep]. rewrite Hstep.
      apply IH. by apply (consistent_step g0 e). }
  apply Hrun. unfold AudioEvents.consistent, queue_length. cbn.
  repeat split; try done. apply NoDup_nil_2.
Qed.

(** [isPlaying] is not part of it.  Play-all is pressed twice while the
    only segment loads, a second segment arrives, both promises of the
    first reject and the promise of the second resolves: the flag is up
    with no current element and the cursor at -1. *)
Lemma playing_flag_without_current_element :
  AudioEvents.run
    [AudioEvents.ev_addAudio AudioScenario.url1;
     AudioEvents.ev_togglePlayAll; AudioEvents.ev_togglePlayAll;
     AudioEvents.ev_addAudio AudioScenario.url2;
     AudioEvents.ev_settles 0 false; AudioEvents.ev_settles 0 false;
     AudioEvents.ev_settles 0 true]
    (AudioEvents.mkPage (new []) [])
  = Some (AudioEvents.mkPage
            (mk [mkAudio 0 AudioScenario.url1; mkAudio 1 AudioScenario.url2]
                (-1) true None 2 []
                [AudioAdded AudioScenario.url1; AudioAdded AudioScenario.url2;
                 PlayFailed; PlayFailed; QueueEnded; PlayStarted 0 2])
            []).
Proof. reflexivity. Qed.

End AudioEventsExtras.

(* ===================================================================== *)
(** * Further properties of the file-upload manager *)
(* ===================================================================== *)

Module FileExtras.
Import FileUploadManager FileUploadManagerRest.

(** X18.  Toggling the same file twice restores the selection when that
    file, or none, was active; when another file was active the first
    toggle replaces it and the second clears the selection. *)
Theorem toggle_twice (fileId : string) (m : t) :
  (activeFile m = None \/ activeFile m = Some fileId ->
   toggleFileContext fileId (toggleFileContext fileId m) = m) /\
  (forall other,
      activeFile m = Some other -> other <> fileId ->
      activeFile (toggleFileContext fileId m) = Some fileId /\
      activeFile (toggleFileContext fileId (toggleFileContext fileId m)) = None).
Proof.
  split.
  - intros Hactive. destruct m as [fs active]. unfold toggleFileContext.
    cbn in *. repeat case_bool_decide; destruct Hactive; congruence.
  - intros other Hother Hne. unfold toggleFileContext. cbn.
    repeat case_bool_decide; split; congruence.
Qed.

Lemma toggle_twice_witness :
  toggleFileContext "f1" (toggleFileContext "f1" (after FileScenario.early_context))
  = after FileScenario.early_context /\
  activeFile
    (toggleFileContext "f2" (toggleFileContext "f2" (after FileScenario.early_context)))
  = None.
Proof.
  destruct (toggle_twice "f1" (after FileScenario.early_context)) as [Hsame _].
  destruct (toggle_twice "f2" (after FileScenario.early_context)) as [_ Hother].
  split.
  - apply Hsame. right. reflexivity.
  - apply (Hother "f1"); [reflexivity|discriminate].
Defined.

(** X19.  A file that is added, selected and then reported processed with
    a context yields that context: [getActiveFileContext] returns what
    [updateFileStatus] stored, whatever else the registry holds. *)
Theorem stored_context_is_returned
    (fileInfo : FileInfo) (ctx : JS.Value) (m : t) :
  file_id fileInfo <> "" ->
  activeFile m <> Some (file_id fileInfo) ->
  JS.truthy ctx = true ->
  getActiveFileContext
    (updateFileStatus (file_id fileInfo) "processed" ctx
       (toggleFileContext (file_id fileInfo) (addFileToList fileInfo m)))
  = ctx.
Proof.
  intros Hid Hactive Hctx.
  unfold getActiveFileContext, updateFileStatus, toggleFileContext, addFileToList.
  cbn. rewrite bool_decide_eq_false_2 by done. cbn.
  rewrite lookup_insert_eq. cbn. rewrite Hctx.
  apply String.eqb_neq in Hid. rewrite Hid. by rewrite lookup_insert_eq.
Qed.

Lemma stored_context_is_returned_witness :
  getActiveFileContext
    (updateFileStatus "f1" "processed" (JS.Str "full context")
       (toggleFileContext "f1" (addFileToList FileScenario.notes new)))
  = JS.Str "full context".
Proof.
  apply (stored_context_is_returned FileScenario.notes (JS.Str "full context") new);
    (discriminate || reflexivity).
Defined.

Lemma no_context_run m c :
  carries_no_context c = true ->
  (forall fileId file, files m !! fileId = Some file -> context file = JS.Null) ->
  forall fileId file,
    files (run m c) !! fileId = Some file -> context file = JS.Null.
Proof.
  intros Hc Hinv fileId file.
  destruct c as [fileInfo|id|id ok|id status ctx]; cbn.
  - rewrite lookup_insert. case_decide; [|by apply Hinv]. by intros [= <-].
  - apply Hinv.
  - destruct ok; cbn; [|by apply Hinv].
    rewrite lookup_delete. case_decide; [done|by apply Hinv].
  - cbn in Hc. unfold updateFileStatus.
    destruct (files m !! id) as [old|] eqn:Hold; cbn; [|by apply Hinv].
    rewrite lookup_insert. case_decide; [|by apply Hinv].
    unfold JS.falsy in Hc. apply negb_true_iff in Hc. rewrite Hc.
    intros [= <-]. cbn. by apply (Hinv id old).
Qed.

(** X20.  Status updates that carry no context, which is how
    [handleFileProcessed] issues them, never attach one: after any history
    of uploads, selections, deletions and such updates,
    [getActiveFileContext] returns [null]. *)
Theorem no_context_is_ever_attached (history : list Call) :
  forallb carries_no_context history = true ->
  getActiveFileContext (after history) = JS.Null.
Proof.
  intros Hall.
  assert (forall m,
            (forall fileId file,
                files m !! fileId = Some file -> context file = JS.Null) ->
            forall fileId file,
              files (foldl run m history) !! fileId = Some file ->
              context file = JS.Null) as Hinv.
  { induction history as [|c history IH]; intros m Hm; [done|].
    cbn in Hall. apply andb_prop in Hall as [Hc Hall].
    cbn. apply IH; [done|]. by apply no_context_run. }
  specialize (Hinv new).
  unfold getActiveFileContext.
  destruct (activeFile (after history)) as [fileId|]; [|done].
  destruct (String.eqb fileId ""); [done|].
  destruct (files (after history) !! fileId) as [file|] eqn:Hlook; [|done].
  apply (Hinv ltac:(intros ? ? Hl; cbn in Hl; by rewrite lookup_empty in Hl)
           fileId file Hlook).
Qed.

Lemma no_context_is_ever_attached_witness :
  getActiveFileContext
    (handleFileProcessed "f1"
       (toggleFileContext "f1" (addFileToList FileScenario.notes new)))
  = JS.Null /\
  (processed <$>
     files (handleFileProcessed "f1"
              (toggleFileContext "f1" (addFileToList FileScenario.notes new)))
     !! "f1") = Some true.
Proof.
  split; [|reflexivity].
  apply (no_context_is_ever_attached
           [call_addFileToList FileScenario.notes; call_toggleFileContext "f1";
            call_updateFileStatus "f1" "processed" JS.Null]).
  reflexivity.
Defined.

(** X21.  A deletion the server accepts removes the record; if it was
    the selected file the selection is cleared, [activeFile] is null and no
    context is returned; otherwise the selection, every other record and
    the context returned stay as they were.  A deletion the server refuses
    changes nothing. *)
Theorem deleteFile_removes_only_that_file (fileId : string) (m : t) :
  files (deleteFile fileId true m) !! fileId = None /\
  (activeFile m = Some fileId ->
   activeFile (deleteFile fileId true m) = None /\
   getActiveFileContext (deleteFile fileId true m) = JS.Null) /\
  (forall other,
      other <> fileId ->
      files (deleteFile fileId true m) !! other = files m !! other) /\
  (activeFile m <> Some fileId ->
   activeFile (deleteFile fileId true m) = activeFile m /\
   getActiveFileContext (deleteFile fileId true m) = getActiveFileContext m) /\
  deleteFile fileId false m = m.
Proof.
  unfold deleteFile, getActiveFileContext. cbn.
  split; [apply lookup_delete_eq|].
  split; [intros ->; by rewrite bool_decide_eq_true_2|].
  split; [intros other Hother; by apply lookup_delete_ne|].
  split; [|done].
  intros Hactive. rewrite bool_decide_eq_false_2 by done.
  split; [done|].
  destruct (activeFile m) as [active|]; [|done].
  destruct (String.eqb active ""); [done|].
  rewrite lookup_delete_ne by congruence. done.
Qed.

Lemma deleteFile_removes_only_that_file_witness :
  activeFile (deleteFile "f1" true (after FileScenario.processed_context))
  = None /\
  getActiveFileContext (deleteFile "f1" true (after FileScenario.processed_context))
  = JS.Null /\
  activeFile (deleteFile "f2" true (after FileScenario.processed_context))
  = Some "f1" /\
  getActiveFileContext (deleteFile "f2" true (after FileScenario.processed_context))
  = JS.Str "full context".
Proof.
  destruct (deleteFile_removes_only_that_file "f1"
              (after FileScenario.processed_context)) as (_ & Hgone & _).
  destruct (deleteFile_removes_only_that_file "f2"
              (after FileScenario.processed_context)) as (_ & _ & _ & Hkept & _).
  destruct Hgone as [Hnone Hnull]; [reflexivity|].
  destruct Hkept as [Hsame Hcontext]; [discriminate|].
  split; [exact Hnone|]. split; [exact Hnull|].
  split; [rewrite Hsame|rewrite Hcontext]; reflexivity.
Defined.

Section Lowercase.
Variable toLowerCase : string -> string.

(** X22.  [processFile] is all or nothing.  A file over 10 MB or of an
    unsupported type is refused before any upload: one alert, the registry
    and the handler untouched.  So is an upload the server refuses or that
    throws.  Otherwise the uploaded file is registered, not processed and
    without context, and one [file_process] message with its path is handed
    to [sendMessage]; no alert is raised. *)
Theorem processFile_is_all_or_nothing
    (file : Picked) (outcome : UploadOutcome) (pg : Page) :
  let after := processFile toLowerCase file outcome pg in
  ((maxFileSize < picked_size file)%Z \/ isFileSupported toLowerCase file = false
   \/ (forall result, outcome <> uploaded result) ->
   manager after = manager pg /\
   wsHandler after = wsHandler pg /\
   exists message, alerts after = alerts pg ++ [message]) /\
  (forall result,
      (picked_size file <= maxFileSize)%Z ->
      isFileSupported toLowerCase file = true ->
      outcome = uploaded result ->
      files (manager after) !! file_id result
      = Some (mkFile (info_name result) (info_size result) (info_path result)
                false JS.Null) /\
      activeFile (manager after) = activeFile (manager pg) /\
      wsHandler after
      = WebSocketHandler.sendMessage (file_process (info_path result))
          (wsHandler pg) /\
      alerts after = alerts pg).
Proof.
  intros after. subst after. unfold processFile. split.
  - intros Hrefused.
    destruct (Z.ltb_spec maxFileSize (picked_size file)); [by eauto|].
    destruct (isFileSupported toLowerCase file); cbn; [|by eauto].
    destruct Hrefused as [?|[?|Hout]]; [lia|done|].
    destruct outcome as [result| |]; [by destruct (Hout result)|by eauto..].
  - intros result Hsize Hsupported ->.
    destruct (Z.ltb_spec maxFileSize (picked_size file)); [lia|].
    rewrite Hsupported. cbn. by rewrite lookup_insert_eq.
Qed.

End Lowercase.

Lemma processFile_is_all_or_nothing_witness :
  let pg := mkPage new (TransportScenario.opened []) [] in
  alerts (processFile MoreScenarios.ascii_lower
            (mkPicked "archive.zip" 2048) (uploaded FileScenario.notes) pg)
  = ["處理文件失敗: 不支持的文件類型"] /\
  WebSocketHandler.transmitted
    (wsHandler (processFile MoreScenarios.ascii_lower
                  (mkPicked "notes.TXT" 2048) (uploaded FileScenario.notes) pg))
  = [file_process "/uploads/notes.txt"].
Proof.
  intros pg. split; [reflexivity|].
  destruct (processFile_is_all_or_nothing MoreScenarios.ascii_lower
              (mkPicked "notes.TXT" 2048) (uploaded FileScenario.notes) pg)
    as [_ Hok].
  destruct (Hok FileScenario.notes) as (_ & _ & -> & _);
    [vm_compute; discriminate|reflexivity|reflexivity|reflexivity].
Defined.

End FileExtras.

(* ===================================================================== *)
(** * Properties of the debug logger *)
(* ===================================================================== *)

Module DebugLoggerExtras.
Import DebugLogger.

Section Lowercase.
Variable toLowerCase : string -> string.

Lemma log_keeps_newest now safeMessage type (d : t) (history : list Entry) :
  logs d = drop (length history - maxLogs d) history ->
  logs (log toLowerCase now safeMessage type d)
  = drop (length (history ++ [mkEntry now safeMessage (formatType toLowerCase type)])
          - maxLogs d)
      (history ++ [mkEntry now safeMessage (formatType toLowerCase type)]).
Proof.
  intros Hlogs. unfold log. cbn [logs maxLogs]. rewrite Hlogs.
  rewrite !length_app, length_drop. cbn [length].
  set (entry := mkEntry now safeMessage (formatType toLowerCase type)).
  destruct (Nat.ltb_spec (maxLogs d)
              (length history - (length history - maxLogs d) + 1)) as [Hfull|Hroom].
  - assert (maxLogs d <= length history) by lia.
    replace (length history + 1 - maxLogs d)
      with (S (length history - maxLogs d)) by lia.
    rewrite <- drop_app_le by lia.
    generalize (length history - maxLogs d) (history ++ [entry]).
    intros n l. revert l. induction n as [|n IH]; intros [|x l]; cbn; done.
  - replace (length history + 1 - maxLogs d) with 0 by lia.
    replace (length history - maxLogs d) with 0 by lia. done.
Qed.

(** X23.  [this.logs] is a sliding window: after any run of [log] calls on
    a logger holding at most [maxLogs] entries, it holds the newest
    [maxLogs] of the entries it held and those logged since, in order, and
    so never more than [maxLogs]. *)
Theorem logs_are_the_newest_entries (calls : list LogCall) (d : t) :
  length (logs d) <= maxLogs d ->
  let history := logs d ++ (entry_of toLowerCase <$> calls) in
  logs (log_all toLowerCase calls d)
  = drop (length history - maxLogs d) history /\
  maxLogs (log_all toLowerCase calls d) = maxLogs d /\
  length (logs (log_all toLowerCase calls d)) <= maxLogs d.
Proof.
  intros Hfits history.
  assert (logs (log_all toLowerCase calls d)
          = drop (length history - maxLogs d) history /\
          maxLogs (log_all toLowerCase calls d) = maxLogs d) as [Hlogs Hmax].
  { subst history. induction calls as [|c calls IH] using rev_ind.
    - cbn. rewrite app_nil_r.
      replace (length (logs d) - maxLogs d) with 0 by lia. done.
    - unfold log_all in *. rewrite foldl_app. cbn [foldl].
      destruct IH as [IHlogs IHmax].
      rewrite fmap_app, app_assoc. cbn [fmap list_fmap].
      split; [|by rewrite <- IHmax].
      rewrite <- IHmax. apply log_keeps_newest. by rewrite IHmax. }
  split; [done|]. split; [done|].
  rewrite Hlogs, length_drop. lia.
Qed.

(** X24.  Whatever it is given, [formatType] answers one of the four
    allowed types; anything that is not a string naming one of them, up to
    case, becomes ['info']. *)
Theorem formatType_is_an_allowed_type (type : JS.Value) :
  formatType toLowerCase type ∈ allowedTypes /\
  ((forall s, type = JS.Str s -> toLowerCase s ∉ allowedTypes) ->
   formatType toLowerCase type = "info").
Proof.
  unfold formatType. split.
  - destruct type as [| | | | |s|]; try (by apply list_elem_of_here).
    destruct (String.eqb s ""); [by apply list_elem_of_here|].
    case_bool_decide; [done|by apply list_elem_of_here].
  - intros Hnot. destruct type as [| | | | |s|]; try done.
    destruct (String.eqb s ""); [done|].
    case_bool_decide; [|done]. by destruct (Hnot s eq_refl).
Qed.

End Lowercase.

Lemma logs_are_the_newest_entries_witness :
  logs (log_all MoreScenarios.ascii_lower
          [("t1", "one", JS.Str "info"); ("t2", "two", JS.Str "ERROR");
           ("t3", "three", JS.Str "debug")]
          (mk [] 2))
  = [mkEntry "t2" "two" "error"; mkEntry "t3" "three" "info"].
Proof.
  destruct (logs_are_the_newest_entries MoreScenarios.ascii_lower
              [("t1", "one", JS.Str "info"); ("t2", "two", JS.Str "ERROR");
               ("t3", "three", JS.Str "debug")]
              (mk [] 2)) as [-> _]; [cbn; lia|reflexivity].
Defined.

Lemma formatType_is_an_allowed_type_witness :
  formatType MoreScenarios.ascii_lower (JS.Str "debug") = "info" /\
  formatType MoreScenarios.ascii_lower (JS.Number 3) = "info".
Proof.
  split.
  - apply (formatType_is_an_allowed_type MoreScenarios.ascii_lower (JS.Str "debug")).
    intros s [= <-] Hin.
    repeat (apply elem_of_cons in Hin as [Hin|Hin]; [discriminate|]).
    by apply elem_of_nil in Hin.
  - apply (formatType_is_an_allowed_type MoreScenarios.ascii_lower (JS.Number 3)).
    intros s [=].
Defined.

End DebugLoggerExtras.
